(** * Sensei dashboard: dataset accessor, selection state and question progression

    A shallow embedding of [frontend/utils/dashboardData.ts], of the dashboard
    page component (state, effects and handlers) and of the [Quiz] component,
    followed by the properties of the specification that were checked against
    them.

    Conventions of the embedding:
    - a TypeScript [string] is a [string]; [===] on strings is decidable
      equality; a value of type [string | null] (or [| undefined]) is an
      [option string];
    - a condition on such a value ([if (x)], [!x], [x || y], [x && y]) is
      JavaScript truthiness: [null], [undefined] and the empty string are
      falsy, every other string is truthy; objects are truthy;
    - page numbers and offsets are integers ([Z]); an optional number is an
      [option Z], falsy when absent or zero;
    - [Array.prototype.find] is [array_find] (first match, by [list_find]),
      [Array.prototype.filter] is [filter], [Array.prototype.map] is [fmap];
    - React state is a record, a handler is a function on that record, and
      one user event is a [step]: the handler, the render that follows it,
      the effects whose dependencies changed, and the render after those. *)

From Stdlib Require Import ZArith Ascii.
From stdpp Require Import base tactics option list strings pretty gmap.

Local Open Scope string_scope.
Local Open Scope list_scope.

(** ** JavaScript truthiness *)

Definition truthy (s : string) : bool := bool_decide (s ≠ "").

Definition truthy_opt (o : option string) : bool :=
  match o with
  | Some s => truthy s
  | None => false
  end.

(** [x || null] for [x : string | undefined]. *)
Definition or_null (o : option string) : option string :=
  match o with
  | Some s => if truthy s then Some s else None
  | None => None
  end.

(** [x || dflt] for [x : string | null]. *)
Definition or_else (o : option string) (dflt : string) : string :=
  match o with
  | Some s => if truthy s then s else dflt
  | None => dflt
  end.

(** [n && n > 0] for [n : number | undefined]. *)
Definition positive_number (n : option Z) : bool :=
  match n with
  | Some z => negb (z =? 0)%Z && (0 <? z)%Z
  | None => false
  end.

(** [Array.prototype.find]: the first element that satisfies the predicate. *)
Definition array_find {A} (P : A → Prop) `{∀ x, Decision (P x)}
    (l : list A) : option A :=
  snd <$> list_find P l.

(** ** The JSON structure ([dashboardData.ts], lines 1-54) *)

Module Subtopic.
Record t := mk {
  id : string;
  title : string;
  page_reference : Z;
  char_start : Z;
  char_end : Z
}.
End Subtopic.

Module Topic.
Record t := mk {
  id : string;
  title : string;
  subtopics : list Subtopic.t;
  page_range : list Z
}.
End Topic.

Module Choice.
Record t := mk {
  choice_id : string;
  text : string;
  is_correct : bool;
  explanation : string
}.
End Choice.

Module Question.
Record t := mk {
  question_id : string;
  question_text : string;
  choices : list Choice.t;
  topic_id : string;
  difficulty : string;
  page_reference : Z
}.
End Question.

Module TopicExplanation.
Record t := mk {
  topic_id : string;
  topic_title : string;
  explanation : string;
  prerequisite_concepts : list string;
  next_steps : list string;
  related_topics : list string
}.
End TopicExplanation.

Module DashboardData.
Record structure_t := mk_structure {
  topics : list Topic.t;
  document_title : string
}.
Record explanations_t := mk_explanations {
  overarching_explanation : string;
  topic_explanations : list TopicExplanation.t
}.
Record quiz_t := mk_quiz {
  questions : list Question.t
}.
Record t := mk {
  structure : structure_t;
  explanations : explanations_t;
  quiz : quiz_t
}.
End DashboardData.

(** ** The dataset accessor ([dashboardData.ts], lines 72-133) *)

Definition findTopicById (data : DashboardData.t) (topicId : string)
    : option Topic.t :=
  array_find (λ topic, Topic.id topic = topicId)
    (DashboardData.topics (DashboardData.structure data)).

(** The [for ... of] loop of [findSubtopicById] over the topics. *)
Fixpoint findSubtopicIn (topics : list Topic.t) (subtopicId : string)
    : option (Topic.t * Subtopic.t) :=
  match topics with
  | [] => None
  | topic :: rest =>
      match array_find (λ sub, Subtopic.id sub = subtopicId)
              (Topic.subtopics topic) with
      | Some subtopic => Some (topic, subtopic)
      | None => findSubtopicIn rest subtopicId
      end
  end.

Definition findSubtopicById (data : DashboardData.t) (subtopicId : string)
    : option (Topic.t * Subtopic.t) :=
  findSubtopicIn (DashboardData.topics (DashboardData.structure data)) subtopicId.

Definition getTopicExplanation (data : DashboardData.t) (topicId : string)
    : option string :=
  let explanation :=
    array_find (λ exp, TopicExplanation.topic_id exp = topicId)
      (DashboardData.topic_explanations (DashboardData.explanations data)) in
  or_null (TopicExplanation.explanation <$> explanation).

Definition getSubtopicExplanation (data : DashboardData.t) (subtopicId : string)
    : option string :=
  match findSubtopicById data subtopicId with
  | None => None
  | Some (topic, _) => getTopicExplanation data (Topic.id topic)
  end.

Definition getTopicQuestions (data : DashboardData.t) (topicId : string)
    : list Question.t :=
  filter (λ q, Question.topic_id q = topicId)
    (DashboardData.questions (DashboardData.quiz data)).

Definition getSubtopicQuestions (data : DashboardData.t) (subtopicId : string)
    : list Question.t :=
  match findSubtopicById data subtopicId with
  | None => []
  | Some (topic, _) => getTopicQuestions data (Topic.id topic)
  end.

(** The answer format of the [Quiz] component ([interface Answer]). *)
Module Answer.
Record t := mk {
  id : string;
  text : string;
  isCorrect : bool;
  explanation : string
}.
End Answer.

Module QuestionStackItem.
Record t := mk {
  questionId : string;
  question : string;
  answers : list Answer.t
}.
End QuestionStackItem.

Definition convertQuestionToQuizFormat (question : Question.t)
    : QuestionStackItem.t :=
  QuestionStackItem.mk
    (Question.question_id question)
    (Question.question_text question)
    ((λ choice, Answer.mk (Choice.choice_id choice) (Choice.text choice)
                  (Choice.is_correct choice) (Choice.explanation choice))
       <$> Question.choices question).

(** ** The dashboard page component: state and handlers

    The state variables of [DashboardPage] that the selection and the
    question progression read or write ([pdfFile] is independent of them and
    is left out). *)

Module Page.
Record t := mk {
  dashboardData : option DashboardData.t;
  selectedSubtopicId : option string;
  pdfPageNumber : option Z;
  explanationText : string;
  questionStack : list QuestionStackItem.t;
  currentQuestionIndex : nat;
  questionsComplete : bool
}.

(** The [useState] initial values. *)
Definition initial : t := mk None None None "" [] 0 false.
End Page.

Definition setDashboardData (v : option DashboardData.t) (p : Page.t) : Page.t :=
  Page.mk v (Page.selectedSubtopicId p) (Page.pdfPageNumber p)
    (Page.explanationText p) (Page.questionStack p)
    (Page.currentQuestionIndex p) (Page.questionsComplete p).

Definition setSelectedSubtopicId (v : option string) (p : Page.t) : Page.t :=
  Page.mk (Page.dashboardData p) v (Page.pdfPageNumber p)
    (Page.explanationText p) (Page.questionStack p)
    (Page.currentQuestionIndex p) (Page.questionsComplete p).

Definition setPdfPageNumber (v : option Z) (p : Page.t) : Page.t :=
  Page.mk (Page.dashboardData p) (Page.selectedSubtopicId p) v
    (Page.explanationText p) (Page.questionStack p)
    (Page.currentQuestionIndex p) (Page.questionsComplete p).

Definition setExplanationText (v : string) (p : Page.t) : Page.t :=
  Page.mk (Page.dashboardData p) (Page.selectedSubtopicId p)
    (Page.pdfPageNumber p) v (Page.questionStack p)
    (Page.currentQuestionIndex p) (Page.questionsComplete p).

Definition setQuestionStack (v : list QuestionStackItem.t) (p : Page.t) : Page.t :=
  Page.mk (Page.dashboardData p) (Page.selectedSubtopicId p)
    (Page.pdfPageNumber p) (Page.explanationText p) v
    (Page.currentQuestionIndex p) (Page.questionsComplete p).

Definition setCurrentQuestionIndex (v : nat) (p : Page.t) : Page.t :=
  Page.mk (Page.dashboardData p) (Page.selectedSubtopicId p)
    (Page.pdfPageNumber p) (Page.explanationText p) (Page.questionStack p)
    v (Page.questionsComplete p).

Definition setQuestionsComplete (v : bool) (p : Page.t) : Page.t :=
  Page.mk (Page.dashboardData p) (Page.selectedSubtopicId p)
    (Page.pdfPageNumber p) (Page.explanationText p) (Page.questionStack p)
    (Page.currentQuestionIndex p) v.

Definition noExplanation : string := "No explanation available.".
Definition noQuestions : string := "No questions available for this subtopic.".
Definition allAnswered : string := "All questions have been answered!".

(** The callback of [loadDashboardData().then] (page component, lines 82-93);
    [data] is [None] when the fetch failed. *)
Definition onDataLoaded (data : option DashboardData.t) (p : Page.t) : Page.t :=
  match data with
  | None => p
  | Some d =>
      let p1 := setDashboardData (Some d) p in
      match DashboardData.topics (DashboardData.structure d) with
      | topic0 :: _ =>
          match Topic.subtopics topic0 with
          | firstSubtopic :: _ =>
              setSelectedSubtopicId (Some (Subtopic.id firstSubtopic)) p1
          | [] => p1
          end
      | [] => p1
      end
  end.

(** The effect with dependencies [dashboardData, selectedSubtopicId]
    (lines 96-118). *)
Definition questionStackEffect (p : Page.t) : Page.t :=
  match Page.dashboardData p, Page.selectedSubtopicId p with
  | Some dashboardData, Some selectedSubtopicId =>
      if truthy selectedSubtopicId then
        let questions := getSubtopicQuestions dashboardData selectedSubtopicId in
        if bool_decide (0 < length questions) then
          let stack := convertQuestionToQuizFormat <$> questions in
          let explanation := getSubtopicExplanation dashboardData selectedSubtopicId in
          setExplanationText (or_else explanation noExplanation)
            (setQuestionsComplete false
               (setCurrentQuestionIndex 0 (setQuestionStack stack p)))
        else
          setExplanationText noQuestions
            (setQuestionsComplete false
               (setCurrentQuestionIndex 0 (setQuestionStack [] p)))
      else p
  | _, _ => p
  end.

Definition handleAnswerSelect (explanation : string) (p : Page.t) : Page.t :=
  setExplanationText explanation p.

(** [currentQuestionIndex < questionStack.length - 1] is compared over the
    integers, as in the source ([length - 1] is [-1] for an empty stack). *)
Definition handleNextQuestion (p : Page.t) : Page.t :=
  if bool_decide (Z.of_nat (Page.currentQuestionIndex p)
                  < Z.of_nat (length (Page.questionStack p)) - 1)%Z then
    let p1 := setCurrentQuestionIndex (Page.currentQuestionIndex p + 1) p in
    match Page.dashboardData p, Page.selectedSubtopicId p with
    | Some dashboardData, Some selectedSubtopicId =>
        if truthy selectedSubtopicId then
          let explanation := getSubtopicExplanation dashboardData selectedSubtopicId in
          setExplanationText (or_else explanation noExplanation) p1
        else p1
    | _, _ => p1
    end
  else
    setExplanationText allAnswered (setQuestionsComplete true p).

Definition handleSubtopicClick (subtopicId : string) (pageReference : option Z)
    (p : Page.t) : Page.t :=
  let p1 := setSelectedSubtopicId (Some subtopicId) p in
  if positive_number pageReference then setPdfPageNumber pageReference p1 else p1.

(** ** The [Quiz] component: local state and handlers *)

Module Quiz.
Record t := mk {
  selectedAnswer : option string;
  correctAnswerId : option string;
  selectedExplanation : option string
}.

(** The [useState] initial values, also what the reset effect sets. *)
Definition initial : t := mk None None None.
End Quiz.

(** [handleAnswerClick] returns the new local state and, when it notifies the
    parent, the argument of [onAnswerSelect]. *)
Definition handleAnswerClick (answers : list Answer.t) (q : Quiz.t)
    (answerId : string) (isCorrect : bool) (explanation : string)
    : Quiz.t * option string :=
  if truthy_opt (Quiz.selectedAnswer q) then (q, None)
  else
    let correctAnswerId :=
      if isCorrect then Some answerId
      else
        match array_find (λ a, Answer.isCorrect a = true) answers with
        | Some correct => Some (Answer.id correct)
        | None => Quiz.correctAnswerId q
        end in
    (Quiz.mk (Some answerId) correctAnswerId (Some explanation), Some explanation).

(** [handleNext]: whether [onNext] is called. *)
Definition handleNext (q : Quiz.t) : bool := truthy_opt (Quiz.selectedAnswer q).

Inductive ButtonStyle := Neutral | Green | Red.

Definition getButtonStyle (q : Quiz.t) (answer : Answer.t) : ButtonStyle :=
  if negb (truthy_opt (Quiz.selectedAnswer q)) then Neutral
  else if Answer.isCorrect answer then Green
  else Red.

(** ** Rendering and reconciliation

    What the page renders in the quiz container (lines 189-208): the active
    [Quiz] with its key and props, the completed [Quiz], or the placeholder. *)

Inductive View :=
  | QuizActive (key question : string) (answers : list Answer.t)
  | QuizComplete
  | NoQuestions.

(** The template literal [`${selectedSubtopicId}-${currentQuestionIndex}`]:
    [null] prints as the four letters null, a number in decimal. *)
Definition quizKey (selectedSubtopicId : option string) (index : nat) : string :=
  default "null" selectedSubtopicId +:+ "-" +:+ pretty index.

Definition render (p : Page.t) : View :=
  let stack := Page.questionStack p in
  let index := Page.currentQuestionIndex p in
  if bool_decide (0 < length stack) && bool_decide (index < length stack) then
    match stack !! index with
    | Some item =>
        QuizActive (quizKey (Page.selectedSubtopicId p) index)
          (QuestionStackItem.question item) (QuestionStackItem.answers item)
    | None => NoQuestions
    end
  else if Page.questionsComplete p then QuizComplete
  else NoQuestions.

(** The mounted active [Quiz]: the key it was mounted under, the [question]
    prop of its last render (the dependency of its reset effect) and its
    local state. *)
Module Mounted.
Record t := mk {
  key : string;
  question : string;
  state : Quiz.t
}.
End Mounted.

(** React keeps the local state of a child whose key is unchanged and mounts
    a new instance (initial state) otherwise; the effect of [Quiz] with
    dependency [question] resets the state when that prop changed. The
    completed [Quiz] has no key and no control, so its state is not kept. *)
Definition reconcile (p : Page.t) (old : option Mounted.t) : option Mounted.t :=
  match render p with
  | QuizActive k question _ =>
      match old with
      | Some m =>
          if bool_decide (Mounted.key m = k) then
            Some (Mounted.mk k question
                    (if bool_decide (Mounted.question m = question)
                     then Mounted.state m else Quiz.initial))
          else Some (Mounted.mk k question Quiz.initial)
      | None => Some (Mounted.mk k question Quiz.initial)
      end
  | QuizComplete | NoQuestions => None
  end.

Module App.
Record t := mk {
  page : Page.t;
  quiz : option Mounted.t
}.

Definition initial : t := mk Page.initial None.
End App.

(** A render after a state update, the question-stack effect when one of its
    dependencies changed, and the render after the effect. *)
Definition commit (p : Page.t) (q : option Mounted.t) (depsChanged : bool) : App.t :=
  let q1 := reconcile p q in
  if depsChanged then
    let p' := questionStackEffect p in
    App.mk p' (reconcile p' q1)
  else App.mk p q1.

(** ** Events

    [DataLoaded]: the dataset promise resolves; [SubtopicClick]: a sidebar
    entry calls [onSubtopicClick]; [AnswerClick n]: the [n]-th answer button
    of the active quiz; [NextClick]: its Next button. The [disabled]
    attributes of the buttons repeat the guards of the handlers. *)

Inductive event :=
  | DataLoaded (data : option DashboardData.t)
  | SubtopicClick (subtopicId : string) (pageReference : option Z)
  | AnswerClick (n : nat)
  | NextClick.

Definition step (a : App.t) (e : event) : App.t :=
  match e with
  | DataLoaded None => a
  | DataLoaded (Some d) =>
      commit (onDataLoaded (Some d) (App.page a)) (App.quiz a) true
  | SubtopicClick subtopicId pageReference =>
      let p := handleSubtopicClick subtopicId pageReference (App.page a) in
      commit p (App.quiz a)
        (bool_decide (Page.selectedSubtopicId (App.page a) ≠ Some subtopicId))
  | AnswerClick n =>
      match App.quiz a, render (App.page a) with
      | Some m, QuizActive _ _ answers =>
          match answers !! n with
          | Some answer =>
              let '(q, notify) :=
                handleAnswerClick answers (Mounted.state m) (Answer.id answer)
                  (Answer.isCorrect answer) (Answer.explanation answer) in
              let p :=
                match notify with
                | Some explanation => handleAnswerSelect explanation (App.page a)
                | None => App.page a
                end in
              commit p (Some (Mounted.mk (Mounted.key m) (Mounted.question m) q)) false
          | None => a
          end
      | _, _ => a
      end
  | NextClick =>
      match App.quiz a with
      | Some m =>
          if handleNext (Mounted.state m)
          then commit (handleNextQuestion (App.page a)) (App.quiz a) false
          else a
      | None => a
      end
  end.

Definition run (a : App.t) (events : list event) : App.t :=
  foldl step a events.

(** ** The question progression read off the page state *)

Inductive Progression :=
  | Empty
  | InProgress (index : nat)
  | Complete.

Definition progression (p : Page.t) : Progression :=
  match Page.questionStack p with
  | [] => Empty
  | _ :: _ =>
      if Page.questionsComplete p then Complete
      else InProgress (Page.currentQuestionIndex p)
  end.

(** The current question has been answered: a choice has been recorded. *)
Definition answered (a : App.t) : Prop :=
  ∃ m, App.quiz a = Some m ∧ is_Some (Quiz.selectedAnswer (Mounted.state m)).

(** No answer is recorded for the displayed question. *)
Definition unanswered (a : App.t) : Prop :=
  match App.quiz a with
  | Some m => Mounted.state m = Quiz.initial
  | None => True
  end.

(** ** Vocabulary of the properties *)

Definition topicsOf (data : DashboardData.t) : list Topic.t :=
  DashboardData.topics (DashboardData.structure data).

Definition questionsOf (data : DashboardData.t) : list Question.t :=
  DashboardData.questions (DashboardData.quiz data).

Definition explanationsOf (data : DashboardData.t) : list TopicExplanation.t :=
  DashboardData.topic_explanations (DashboardData.explanations data).

(** [topic] contains a subtopic with the given id. *)
Definition has_subtopic (subtopicId : string) (topic : Topic.t) : Prop :=
  ∃ sub, sub ∈ Topic.subtopics topic ∧ Subtopic.id sub = subtopicId.

(** [(topic, subtopic)] is the first subtopic with the given id in document
    order: no earlier topic has one, and no earlier subtopic of [topic]. *)
Definition first_match (topics : list Topic.t) (subtopicId : string)
    (topic : Topic.t) (subtopic : Subtopic.t) : Prop :=
  ∃ before after earlier later,
    topics = before ++ topic :: after ∧
    (∀ t, t ∈ before → ¬ has_subtopic subtopicId t) ∧
    Topic.subtopics topic = earlier ++ subtopic :: later ∧
    Subtopic.id subtopic = subtopicId ∧
    (∀ s, s ∈ earlier → Subtopic.id s ≠ subtopicId).

(** [topic] is the owning topic of the subtopic id: the first topic of the
    dataset that contains a subtopic with that id (the only one when subtopic
    ids are unique). *)
Definition owning_topic (data : DashboardData.t) (subtopicId : string)
    (topic : Topic.t) : Prop :=
  ∃ before after,
    topicsOf data = before ++ topic :: after ∧
    (∀ t, t ∈ before → ¬ has_subtopic subtopicId t) ∧
    has_subtopic subtopicId topic.

Definition matches_topic (topicId : string) (q : Question.t) : Prop :=
  Question.topic_id q = topicId.

(** No explanation entry has the topic id. *)
Definition no_explanation_entry (data : DashboardData.t) (topicId : string) : Prop :=
  ∀ e, e ∈ explanationsOf data → TopicExplanation.topic_id e ≠ topicId.

(** The first explanation entry with the topic id has an empty text. *)
Definition empty_explanation_entry (data : DashboardData.t) (topicId : string) : Prop :=
  ∃ before e after,
    explanationsOf data = before ++ e :: after ∧
    (∀ e', e' ∈ before → TopicExplanation.topic_id e' ≠ topicId) ∧
    TopicExplanation.topic_id e = topicId ∧
    TopicExplanation.explanation e = "".

(** ** Reachable states and their invariant *)

Definition reachable (a : App.t) : Prop :=
  ∃ events, a = run App.initial events.

(** The mounted quiz is the one the page renders. *)
Definition mounted_ok (a : App.t) : Prop :=
  match render (App.page a) with
  | QuizActive k question _ => ∃ st, App.quiz a = Some (Mounted.mk k question st)
  | QuizComplete | NoQuestions => App.quiz a = None
  end.

(** What every handler and the effect preserve: a non-empty question stack
    needs a dataset and a selection, and the index stays inside the stack. *)
Definition PageInv (p : Page.t) : Prop :=
  (Page.selectedSubtopicId p = None → Page.questionStack p = []) ∧
  (Page.dashboardData p = None → Page.questionStack p = []) ∧
  (Page.questionStack p = [] ∨
   Page.currentQuestionIndex p < length (Page.questionStack p)).

Definition Inv (a : App.t) : Prop :=
  mounted_ok a ∧ PageInv (App.page a).

(** The local state of the mounted quiz, if any. *)
Definition quizState (a : App.t) : option Quiz.t :=
  Mounted.state <$> App.quiz a.

(** The answers of the displayed question. *)
Definition currentAnswers (p : Page.t) : list Answer.t :=
  match render p with
  | QuizActive _ _ answers => answers
  | QuizComplete | NoQuestions => []
  end.

(** ** Example datasets *)

Module Sample.
Definition choice (i : string) (ok : bool) (e : string) : Choice.t :=
  Choice.mk i ("choice " +:+ i) ok e.

Definition s1 : Subtopic.t := Subtopic.mk "s1" "Binary trees" 3 0 120.
Definition t1 : Topic.t := Topic.mk "t1" "Trees" [s1] [3; 5]%Z.

Definition q1 : Question.t :=
  Question.mk "q1" "What is a leaf?"
    [choice "a" true "A leaf has no children.";
     choice "b" false "The root is the top node."]
    "t1" "easy" 3.
Definition q2 : Question.t :=
  Question.mk "q2" "What is the height of a single node?"
    [choice "a" false "Height counts edges."; choice "b" true "Zero edges."]
    "t1" "easy" 4.

Definition e1 : TopicExplanation.t :=
  TopicExplanation.mk "t1" "Trees" "Trees are hierarchical." [] [] [].

(** One topic with one subtopic and two questions. *)
Definition data : DashboardData.t :=
  DashboardData.mk
    (DashboardData.mk_structure [t1] "Trees")
    (DashboardData.mk_explanations "Overview" [e1])
    (DashboardData.mk_quiz [q1; q2]).

(** A dataset that uses the empty string as an id: the only subtopic of
    the second topic, and the first choice of the first question. *)
Definition s0 : Subtopic.t := Subtopic.mk "" "Untitled" 0 0 0.
Definition t2 : Topic.t := Topic.mk "t2" "Graphs" [s0] [6; 7]%Z.
Definition q0 : Question.t :=
  Question.mk "q0" "Which structure has a root?"
    [choice "" false "A graph has no root."; choice "b" true "A tree has a root."]
    "t1" "easy" 3.

Definition emptyIds : DashboardData.t :=
  DashboardData.mk
    (DashboardData.mk_structure [t1; t2] "Trees")
    (DashboardData.mk_explanations "Overview" [e1])
    (DashboardData.mk_quiz [q0; q2]).

(** The dashboard after the dataset has loaded. *)
Definition loaded : App.t := step App.initial (DataLoaded (Some data)).
Definition loadedEmptyIds : App.t := step App.initial (DataLoaded (Some emptyIds)).

(** The quiz mounted after [data] has loaded, and the second answer of its
    first question. *)
Definition m0 : Mounted.t := Mounted.mk "s1-0" "What is a leaf?" Quiz.initial.
Definition b1 : Answer.t :=
  Answer.mk "b" "choice b" false "The root is the top node.".

(** A dataset without topics. *)
Definition noTopics : DashboardData.t :=
  DashboardData.mk
    (DashboardData.mk_structure [] "Nothing")
    (DashboardData.mk_explanations "" [])
    (DashboardData.mk_quiz []).
End Sample.

(** ** The explanation panel ([Explanation] component)

    What the panel displays for its [text] prop: [text || "No explanation
    available."]. *)

Definition Explanation (text : string) : string :=
  if truthy text then text else noExplanation.

(** ** Values the page derives for the sidebar (lines 120-130, 151-153) *)

Module SidebarSubtopic.
Record t := mk {
  id : string;
  title : string;
  page_reference : option Z
}.
End SidebarSubtopic.

Module SidebarTopic.
Record t := mk {
  id : string;
  title : string;
  subtopics : list SidebarSubtopic.t;
  page_range : list Z
}.
End SidebarTopic.

Definition topicsWithPageRefs (p : Page.t) : list SidebarTopic.t :=
  match Page.dashboardData p with
  | Some dashboardData =>
      (λ topic,
         SidebarTopic.mk (Topic.id topic) (Topic.title topic)
           ((λ subtopic,
               SidebarSubtopic.mk (Subtopic.id subtopic) (Subtopic.title subtopic)
                 (Some (Subtopic.page_reference subtopic)))
              <$> Topic.subtopics topic)
           (Topic.page_range topic))
        <$> DashboardData.topics (DashboardData.structure dashboardData)
  | None => []
  end.

(** [dashboardData?.structure.document_title || "Trees"]. *)
Definition mainTopic (p : Page.t) : string :=
  or_else
    ((λ d, DashboardData.document_title (DashboardData.structure d))
       <$> Page.dashboardData p)
    "Trees".

(** ** The [Sidebar] component

    [openDropdowns] is a [Set<string>] of topic ids. *)

Definition toggleDropdown (topicId : string) (prev : gset string) : gset string :=
  if decide (topicId ∈ prev) then prev ∖ {[topicId]} else prev ∪ {[topicId]}.

(** The subtopic buttons the sidebar renders: those of the topics whose id
    is in [openDropdowns], in order. *)
Definition renderedSubtopics (topics : list SidebarTopic.t)
    (openDropdowns : gset string) : list SidebarSubtopic.t :=
  topics ≫= λ topic,
    if decide (SidebarTopic.id topic ∈ openDropdowns)
    then SidebarTopic.subtopics topic else [].

(** [handleSubtopicSelect] hands the id and page reference of the clicked
    entry to [onSubtopicClick]. *)
Definition handleSubtopicSelect (subtopic : SidebarSubtopic.t) : event :=
  SubtopicClick (SidebarSubtopic.id subtopic) (SidebarSubtopic.page_reference subtopic).

(** ** The [PDFViewer] component

    [file] is a [File] object (opaque, compared by identity) or a URL string.
    [URL.createObjectURL] is a parameter of the model: [createObjectURL n] is
    the URL returned by the call number [n] of the viewer. *)

Inductive PdfFile :=
  | FileObject (file : nat)
  | FileString (url : string).

Global Instance PdfFile_eq_dec : EqDecision PdfFile.
Proof. solve_decision. Defined.

(** [!file] is false for a [File] object and for a non-empty string. *)
Definition file_truthy (file : option PdfFile) : bool :=
  match file with
  | Some (FileObject _) => true
  | Some (FileString url) => truthy url
  | None => false
  end.

(** [s.split('#')[0]]: the part of [s] before its first [#]. *)
Fixpoint beforeHash (s : string) : string :=
  match s with
  | EmptyString => EmptyString
  | String c rest =>
      if decide (c = "#"%char) then EmptyString else String c (beforeHash rest)
  end.

(** The URL with the page fragment, under [pageNumber && pageNumber > 0]. *)
Definition withPage (url : string) (pageNumber : option Z) : string :=
  match pageNumber with
  | Some n => if positive_number pageNumber then url +:+ "#page=" +:+ pretty n else url
  | None => url
  end.

Module Viewer.
(** The refs of the component and the object URLs of its lifetime:
    [iframeSrc] is the [src] of [iframeRef.current] ([None] while the ref is
    null), [created] the URLs obtained from [URL.createObjectURL] (latest
    first), [revoked] those passed to [URL.revokeObjectURL]. *)
Record t := mk {
  blobUrlRef : option string;
  iframeSrc : option string;
  created : list string;
  revoked : list string
}.

Definition initial : t := mk None None [] [].
End Viewer.

(** The effect with dependency [file] (lines 24-63 of the component). The
    container ref is set exactly when the component rendered with a truthy
    file, so the guard is the truthiness of [file]. *)
Definition loadPDF (createObjectURL : nat → string) (file : option PdfFile)
    (pageNumber : option Z) (v : Viewer.t) : Viewer.t :=
  if file_truthy file then
    match file with
    | Some (FileObject _) =>
        let revoked :=
          match Viewer.blobUrlRef v with
          | Some old => if truthy old then old :: Viewer.revoked v else Viewer.revoked v
          | None => Viewer.revoked v
          end in
        let url := createObjectURL (length (Viewer.created v)) in
        Viewer.mk (Some url) (Some (withPage url pageNumber))
          (url :: Viewer.created v) revoked
    | Some (FileString url) =>
        Viewer.mk (Viewer.blobUrlRef v) (Some (withPage url pageNumber))
          (Viewer.created v) (Viewer.revoked v)
    | None => v
    end
  else v.

(** The effect with dependencies [pageNumber, file] (lines 66-91). *)
Definition navigate (createObjectURL : nat → string) (file : option PdfFile)
    (pageNumber : option Z) (v : Viewer.t) : Viewer.t :=
  if file_truthy file then
    match Viewer.iframeSrc v, file with
    | Some _, Some (FileObject _) =>
        if truthy_opt (Viewer.blobUrlRef v) then
          Viewer.mk (Viewer.blobUrlRef v)
            (Some (withPage (default "" (Viewer.blobUrlRef v)) pageNumber))
            (Viewer.created v) (Viewer.revoked v)
        else
          let url := createObjectURL (length (Viewer.created v)) in
          Viewer.mk (Some url) (Some (withPage url pageNumber))
            (url :: Viewer.created v) (Viewer.revoked v)
    | Some _, Some (FileString url) =>
        Viewer.mk (Viewer.blobUrlRef v) (Some (withPage (beforeHash url) pageNumber))
          (Viewer.created v) (Viewer.revoked v)
    | _, _ => v
    end
  else v.

(** The cleanup of the first effect, run when the component unmounts. *)
Definition revokeOnUnmount (v : Viewer.t) : Viewer.t :=
  match Viewer.blobUrlRef v with
  | Some url =>
      if truthy url
      then Viewer.mk (Viewer.blobUrlRef v) (Viewer.iframeSrc v)
             (Viewer.created v) (url :: Viewer.revoked v)
      else v
  | None => v
  end.

Module ViewerProps.
Record t := mk {
  file : option PdfFile;
  pageNumber : option Z
}.
End ViewerProps.

Global Instance ViewerProps_eq_dec : EqDecision ViewerProps.t.
Proof. solve_decision. Defined.

(** Mounting runs both effects in order. *)
Definition mountViewer (createObjectURL : nat → string) (props : ViewerProps.t)
    : Viewer.t :=
  navigate createObjectURL (ViewerProps.file props) (ViewerProps.pageNumber props)
    (loadPDF createObjectURL (ViewerProps.file props) (ViewerProps.pageNumber props)
       Viewer.initial).

(** A render with new props runs the effects whose dependencies changed. *)
Definition updateViewer (createObjectURL : nat → string)
    (old new : ViewerProps.t) (v : Viewer.t) : Viewer.t :=
  let v1 :=
    if decide (ViewerProps.file old = ViewerProps.file new) then v
    else loadPDF createObjectURL (ViewerProps.file new) (ViewerProps.pageNumber new) v in
  if decide (old = new) then v1
  else navigate createObjectURL (ViewerProps.file new) (ViewerProps.pageNumber new) v1.

(** The viewer after it mounted with [props] and re-rendered with each of
    [renders] in turn, together with its current props. *)
Fixpoint viewerRun (createObjectURL : nat → string) (props : ViewerProps.t)
    (v : Viewer.t) (renders : list ViewerProps.t) : ViewerProps.t * Viewer.t :=
  match renders with
  | [] => (props, v)
  | next :: rest =>
      viewerRun createObjectURL next (updateViewer createObjectURL props next v) rest
  end.

Definition viewerLife (createObjectURL : nat → string) (props : ViewerProps.t)
    (renders : list ViewerProps.t) : ViewerProps.t * Viewer.t :=
  viewerRun createObjectURL props (mountViewer createObjectURL props) renders.

(** What the iframe shows for the current props, when a truthy file is set. *)
Definition viewerShows (props : ViewerProps.t) (v : Viewer.t) : Prop :=
  match ViewerProps.file props with
  | Some (FileString url) =>
      truthy url = true →
      Viewer.iframeSrc v = Some (withPage (beforeHash url) (ViewerProps.pageNumber props))
  | Some (FileObject _) =>
      ∃ blob, Viewer.blobUrlRef v = Some blob ∧
              Viewer.iframeSrc v = Some (withPage blob (ViewerProps.pageNumber props))
  | None => True
  end.

(** Every object URL of the viewer's lifetime is revoked, except the one the
    viewer currently holds, which is not. *)
Definition noLeak (v : Viewer.t) : Prop :=
  (∀ url, url ∈ Viewer.created v →
          url ∈ Viewer.revoked v ∨ Viewer.blobUrlRef v = Some url) ∧
  (∀ url, Viewer.blobUrlRef v = Some url →
          url ∈ Viewer.created v ∧ url ∉ Viewer.revoked v).

(** The object URLs of the log are those handed out so far, and only they
    can have been revoked. *)
Definition viewerLog (createObjectURL : nat → string) (v : Viewer.t) : Prop :=
  (∀ url, url ∈ Viewer.created v →
          ∃ i, i < length (Viewer.created v) ∧ url = createObjectURL i) ∧
  (∀ url, url ∈ Viewer.revoked v → url ∈ Viewer.created v).

(** ** The upload page ([Home]) and the hand-over to the dashboard *)

Module File.
Record t := mk {
  name : string;
  type : string
}.
End File.

Module Home.
(** [selectedFile], the session storage, the route pushed to the router,
    the alerts shown and the number of object URLs created so far. *)
Record t := mk {
  selectedFile : option File.t;
  sessionStorage : gmap string string;
  pushed : list string;
  alerts : list string;
  urlsCreated : nat
}.
End Home.

(** [handleFileChange]; [files] is [e.target.files]. *)
Definition handleFileChange (createObjectURL : nat → string)
    (files : list File.t) (h : Home.t) : Home.t :=
  match head files with
  | None => h
  | Some file =>
      if decide (File.type file ≠ "application/pdf") then
        Home.mk (Home.selectedFile h) (Home.sessionStorage h) (Home.pushed h)
          ("Please upload a PDF file only." :: Home.alerts h) (Home.urlsCreated h)
      else
        let fileUrl := createObjectURL (Home.urlsCreated h) in
        Home.mk (Some file)
          (<["uploadedPDF" := fileUrl]> (Home.sessionStorage h))
          ("/dashboard" :: Home.pushed h)
          (Home.alerts h) (S (Home.urlsCreated h))
  end.

(** The upload page as it mounts: no file selected, whatever the session
    storage holds from earlier in the session. *)
Definition homeInitial (sessionStorage : gmap string string) : Home.t :=
  Home.mk None sessionStorage [] [] 0.

(** The upload page after a sequence of change events of the file input. *)
Definition homeRun (createObjectURL : nat → string) (h : Home.t)
    (changes : list (list File.t)) : Home.t :=
  foldl (λ h files, handleFileChange createObjectURL files h) h changes.

(** The dashboard's first effect (lines 74-79): the value of [pdfFile] after
    it, starting from [null]. *)
Definition loadPdfFile (sessionStorage : gmap string string) : option string :=
  or_null (sessionStorage !! "uploadedPDF").

(** ** More vocabulary of the properties *)

(** A completed stack is at its last question. *)
Definition CompleteInv (p : Page.t) : Prop :=
  Page.questionsComplete p = true →
  Page.currentQuestionIndex p + 1 = length (Page.questionStack p).

(** What the answer and Next controls leave alone. *)
Definition quizFrame (a a' : App.t) : Prop :=
  Page.dashboardData (App.page a') = Page.dashboardData (App.page a) ∧
  Page.selectedSubtopicId (App.page a') = Page.selectedSubtopicId (App.page a) ∧
  Page.pdfPageNumber (App.page a') = Page.pdfPageNumber (App.page a) ∧
  Page.questionStack (App.page a') = Page.questionStack (App.page a) ∧
  (Page.currentQuestionIndex (App.page a) ≤ Page.currentQuestionIndex (App.page a'))%nat ∧
  (Page.questionsComplete (App.page a) = true →
   Page.questionsComplete (App.page a') = true).

(** The current PDF page, when set, is a positive number. *)
Definition pdfPositive (p : Page.t) : Prop :=
  match Page.pdfPageNumber p with
  | Some n => (0 < n)%Z
  | None => True
  end.

(** The two controls of the quiz. *)
Definition quizControl (e : event) : Prop :=
  match e with
  | AnswerClick _ | NextClick => True
  | DataLoaded _ | SubtopicClick _ _ => False
  end.

(** Picking the first answer and pressing Next, [k] times over. *)
Definition answerAll (k : nat) : list event :=
  concat (replicate k [AnswerClick 0; NextClick]).

(** From position [index] on, every question of the stack has a first answer
    whose id is not empty. *)
Definition answerable (p : Page.t) (index : nat) : Prop :=
  ∀ j item, (index ≤ j)%nat → Page.questionStack p !! j = Some item →
            ∃ answer, QuestionStackItem.answers item !! 0 = Some answer ∧
                      Answer.id answer ≠ "".

(** [topic] is the first topic with the given id. *)
Definition first_topic (topics : list Topic.t) (topicId : string) (topic : Topic.t) : Prop :=
  ∃ before after,
    topics = before ++ topic :: after ∧
    Topic.id topic = topicId ∧
    (∀ t, t ∈ before → Topic.id t ≠ topicId).

(** [e] is the first explanation entry with the given topic id. *)
Definition first_explanation (data : DashboardData.t) (topicId : string)
    (e : TopicExplanation.t) : Prop :=
  ∃ before after,
    explanationsOf data = before ++ e :: after ∧
    TopicExplanation.topic_id e = topicId ∧
    (∀ e', e' ∈ before → TopicExplanation.topic_id e' ≠ topicId).

Module Demo.
(** Object URLs as browsers number them. *)
Definition createObjectURL (n : nat) : string := "blob:" +:+ pretty n.

Definition slides : File.t := File.mk "slides.pdf" "application/pdf".
Definition home : Home.t := Home.mk None ∅ [] [] 0.

(** The sample dashboard after the first question has been answered. *)
Definition answeredFirst : App.t := step Sample.loaded (AnswerClick 1).

(** The sample dashboard at its second and last question, answered. *)
Definition answeredLast : App.t :=
  run Sample.loaded [AnswerClick 1; NextClick; AnswerClick 0].

(** The sample dashboard with its stack completed. *)
Definition completed : App.t := step answeredLast NextClick.

(** The quiz mounted in [answeredFirst]. *)
Definition m1 : Mounted.t :=
  Mounted.mk "s1-0" "What is a leaf?"
    (Quiz.mk (Some "b") (Some "a") (Some "The root is the top node.")).

(** A second topic with its own subtopic and question. *)
Definition s3 : Subtopic.t := Subtopic.mk "s3" "Heaps" 9 200 320.
Definition t3 : Topic.t := Topic.mk "t3" "Priority queues" [s3] [9; 11]%Z.
Definition q3 : Question.t :=
  Question.mk "q3" "Where is the minimum of a min-heap?"
    [Sample.choice "a" true "At the root."; Sample.choice "b" false "Not at a leaf."]
    "t3" "easy" 9.

Definition twoTopics : DashboardData.t :=
  DashboardData.mk
    (DashboardData.mk_structure [Sample.t1; t3] "Trees and heaps")
    (DashboardData.mk_explanations "Overview" [Sample.e1])
    (DashboardData.mk_quiz [Sample.q1; q3; Sample.q2]).

Definition loadedTwoTopics : App.t := step App.initial (DataLoaded (Some twoTopics)).

(** A dataset whose only question has no choices. *)
Definition q4 : Question.t := Question.mk "q4" "An open question" [] "t1" "easy" 3.
Definition noChoices : DashboardData.t :=
  DashboardData.mk
    (DashboardData.mk_structure [Sample.t1] "Trees")
    (DashboardData.mk_explanations "Overview" [Sample.e1])
    (DashboardData.mk_quiz [q4]).
Definition loadedNoChoices : App.t := step App.initial (DataLoaded (Some noChoices)).

(** A viewer that shows an uploaded [File], then another one, then a URL. *)
Definition viewerProps : ViewerProps.t := ViewerProps.mk (Some (FileObject 0)) None.
Definition viewerRenders : list ViewerProps.t :=
  [ViewerProps.mk (Some (FileObject 0)) (Some 3%Z);
   ViewerProps.mk (Some (FileObject 1)) (Some 3%Z);
   ViewerProps.mk (Some (FileString "/slides.pdf#page=2")) (Some 5%Z)].

(** A dataset whose only question has no correct choice; its first choice
    has the empty string as explanation. *)
Definition q5 : Question.t :=
  Question.mk "q5" "Which of these is a tree?"
    [Sample.choice "a" false ""; Sample.choice "b" false "A cycle is not a tree."]
    "t1" "easy" 3.
Definition noCorrect : DashboardData.t :=
  DashboardData.mk
    (DashboardData.mk_structure [Sample.t1] "Trees")
    (DashboardData.mk_explanations "Overview" [Sample.e1])
    (DashboardData.mk_quiz [q5]).
Definition loadedNoCorrect : App.t := step App.initial (DataLoaded (Some noCorrect)).

(** The quiz mounted in [loadedNoCorrect] and the two answers of its
    question. *)
Definition m5 : Mounted.t := Mounted.mk "s1-0" "Which of these is a tree?" Quiz.initial.
Definition a5 : Answer.t := Answer.mk "a" "choice a" false "".
Definition b5 : Answer.t := Answer.mk "b" "choice b" false "A cycle is not a tree.".

(** A question with two choices flagged correct, after the first one. *)
Definition q6 : Question.t :=
  Question.mk "q6" "Which of these are acyclic?"
    [Sample.choice "a" false "A ring has a cycle.";
     Sample.choice "b" true "A tree has no cycle.";
     Sample.choice "c" true "A forest has no cycle."]
    "t1" "easy" 3.
Definition twoCorrect : DashboardData.t :=
  DashboardData.mk
    (DashboardData.mk_structure [Sample.t1] "Trees")
    (DashboardData.mk_explanations "Overview" [Sample.e1])
    (DashboardData.mk_quiz [q6]).
Definition loadedTwoCorrect : App.t := step App.initial (DataLoaded (Some twoCorrect)).
Definition m6 : Mounted.t := Mounted.mk "s1-0" "Which of these are acyclic?" Quiz.initial.
Definition a6 : Answer.t := Answer.mk "a" "choice a" false "A ring has a cycle.".
Definition b6 : Answer.t := Answer.mk "b" "choice b" true "A tree has no cycle.".
End Demo.

(** * Properties *)

(** ** [Array.prototype.find] *)

Section array_find.
Context {A : Type} (P : A → Prop) `{∀ x, Decision (P x)}.

Lemma array_find_nil : array_find P [] = None.
Proof. reflexivity. Qed.

Lemma array_find_cons x l :
  array_find P (x :: l) = if decide (P x) then Some x else array_find P l.
Proof.
  unfold array_find; simpl. destruct (decide (P x)); [done|].
  by destruct (list_find P l) as [[i y]|].
Qed.

Lemma array_find_None l :
  array_find P l = None ↔ ∀ y, y ∈ l → ¬ P y.
Proof.
  induction l as [|x l IH]; [by split; [intros _ y ?%elem_of_nil|]|].
  rewrite array_find_cons. destruct (decide (P x)) as [Hx|Hx].
  - split; [done|]. intros Hall. destruct (Hall x); [left|done].
  - rewrite IH. split.
    + intros Hall y [->|Hy]%elem_of_cons; auto.
    + intros Hall y Hy. apply Hall. by right.
Qed.

Lemma array_find_Some l x :
  array_find P l = Some x ↔
  ∃ l1 l2, l = l1 ++ x :: l2 ∧ P x ∧ ∀ y, y ∈ l1 → ¬ P y.
Proof.
  induction l as [|z l IH].
  - split; [done|]. intros (l1 & l2 & Hl & _). by destruct l1.
  - rewrite array_find_cons. destruct (decide (P z)) as [Hz|Hz].
    + split.
      * intros [= ->]. exists [], l. split_and!; [done..|].
        by intros y ?%elem_of_nil.
      * intros ([|z' l1] & l2 & Hl & Hx & Hl1); simplify_eq/=; [done|].
        destruct (Hl1 z'); [left|done].
    + rewrite IH. split.
      * intros (l1 & l2 & -> & Hx & Hl1). exists (z :: l1), l2.
        split_and!; [done..|]. intros y [->|Hy]%elem_of_cons; auto.
      * intros ([|z' l1] & l2 & Hl & Hx & Hl1); simplify_eq/=; [done|].
        exists l1, l2. split_and!; [done..|].
        intros y Hy. apply Hl1. by right.
Qed.

Lemma array_find_elem_of l x : array_find P l = Some x → x ∈ l ∧ P x.
Proof.
  intros (l1 & l2 & -> & Hx & _)%array_find_Some. split; [|done].
  apply elem_of_app. right. left.
Qed.
End array_find.

(** ** The dataset accessor *)

Lemma findSubtopicIn_None topics subtopicId :
  findSubtopicIn topics subtopicId = None ↔
  ∀ topic, topic ∈ topics → ¬ has_subtopic subtopicId topic.
Proof.
  induction topics as [|t topics IH]; simpl.
  - split; [|done]. by intros _ topic ?%elem_of_nil.
  - destruct (array_find _ (Topic.subtopics t)) as [sub|] eqn:Hfind.
    + split; [done|]. intros Hall.
      apply array_find_elem_of in Hfind as [Hin Hid].
      destruct (Hall t); [left|by exists sub].
    + rewrite IH. rewrite array_find_None in Hfind. split.
      * intros Hall topic [->|Hin]%elem_of_cons; [|by apply Hall].
        intros (sub & Hsub & Hid). by apply (Hfind sub).
      * intros Hall topic Hin. apply Hall. by right.
Qed.

Lemma findSubtopicIn_Some topics subtopicId topic subtopic :
  findSubtopicIn topics subtopicId = Some (topic, subtopic) ↔
  first_match topics subtopicId topic subtopic.
Proof.
  induction topics as [|t topics IH]; simpl.
  - split; [done|]. intros (before & ? & ? & ? & Hl & _). by destruct before.
  - destruct (array_find _ (Topic.subtopics t)) as [sub|] eqn:Hfind.
    + split.
      * intros [= -> ->].
        apply array_find_Some in Hfind as (earlier & later & Hsubs & Hid & Hearlier).
        exists [], topics, earlier, later. split_and!; [done| |done..].
        by intros ? ?%elem_of_nil.
      * intros ([|t' before] & after & earlier & later & Hl & Hbefore & Hsubs & Hid & Hearlier);
          simplify_eq/=.
        -- assert (array_find (λ s, Subtopic.id s = Subtopic.id subtopic)
                     (Topic.subtopics topic) = Some subtopic) as Hfind'.
           { apply array_find_Some. by exists earlier, later. }
           congruence.
        -- apply array_find_elem_of in Hfind as [Hin Hid'].
           destruct (Hbefore t'); [left|by exists sub].
    + rewrite IH. rewrite array_find_None in Hfind. split.
      * intros (before & after & earlier & later & -> & Hbefore & Hrest).
        exists (t :: before), after, earlier, later. split; [done|].
        split; [|done]. intros t' [->|Hin]%elem_of_cons; [|by apply Hbefore].
        intros (sub & Hsub & Hid). by apply (Hfind sub).
      * intros ([|t' before] & after & earlier & later & Hl & Hbefore & Hsubs & Hid & Hearlier);
          simplify_eq/=.
        -- destruct (Hfind subtopic); [|done]. rewrite Hsubs.
           apply elem_of_app. right. left.
        -- exists before, after, earlier, later. split_and!; [done| |done..].
           intros t Ht. apply Hbefore. by right.
Qed.

(** C7. [findSubtopicById] returns the first subtopic with the given id in
    document order (topics in order, then the subtopics of each topic in
    order) together with the topic that holds it, whose [subtopics] sequence
    contains the returned subtopic; it returns nothing exactly when no topic
    of the dataset contains a subtopic with that id. *)
Theorem findSubtopicById_first_match (data : DashboardData.t) (subtopicId : string) :
  match findSubtopicById data subtopicId with
  | Some (topic, subtopic) =>
      first_match (topicsOf data) subtopicId topic subtopic ∧
      topic ∈ topicsOf data ∧
      subtopic ∈ Topic.subtopics topic ∧
      Subtopic.id subtopic = subtopicId
  | None => ∀ topic, topic ∈ topicsOf data → ¬ has_subtopic subtopicId topic
  end.
Proof.
  unfold findSubtopicById. fold (topicsOf data).
  destruct (findSubtopicIn (topicsOf data) subtopicId) as [[topic subtopic]|] eqn:Hfind.
  - apply findSubtopicIn_Some in Hfind as Hfirst. split; [done|].
    destruct Hfirst as (before & after & earlier & later & -> & _ & -> & Hid & _).
    split_and!; [| |done]; apply elem_of_app; right; left.
  - by apply findSubtopicIn_None.
Qed.

Lemma owning_topic_found data subtopicId topic :
  owning_topic data subtopicId topic →
  ∃ subtopic, findSubtopicById data subtopicId = Some (topic, subtopic).
Proof.
  intros (before & after & Htopics & Hbefore & sub & Hsub & Hid).
  unfold findSubtopicById. fold (topicsOf data). rewrite Htopics. clear Htopics.
  induction before as [|t before IH]; simpl.
  - destruct (array_find _ (Topic.subtopics topic)) as [s|] eqn:Hfind; [by exists s|].
    rewrite array_find_None in Hfind. by destruct (Hfind sub).
  - destruct (array_find _ (Topic.subtopics t)) as [s|] eqn:Hfind.
    + apply array_find_elem_of in Hfind as [Hin Hid'].
      destruct (Hbefore t); [left|by exists s].
    + apply IH. intros t' Ht'. apply Hbefore. by right.
Qed.

(** Under the schema's assumption that subtopic ids are unique across the
    dataset, the owning topic is simply the topic that contains the id. *)
Lemma owning_topic_unique data subtopicId topic :
  topic ∈ topicsOf data →
  has_subtopic subtopicId topic →
  (∀ t, t ∈ topicsOf data → has_subtopic subtopicId t → t = topic) →
  owning_topic data subtopicId topic.
Proof.
  unfold owning_topic. generalize (topicsOf data) as topics.
  induction topics as [|x topics IH]; intros Hin Hhas Huniq.
  - by apply elem_of_nil in Hin.
  - destruct (array_find (λ sub, Subtopic.id sub = subtopicId) (Topic.subtopics x))
      as [sub|] eqn:Hfind.
    + apply array_find_elem_of in Hfind as [Hsub Hid].
      assert (x = topic) as -> by (apply Huniq; [left|by exists sub]).
      exists [], topics. split_and!; [done| |done]. by intros ? ?%elem_of_nil.
    + rewrite array_find_None in Hfind.
      assert (¬ has_subtopic subtopicId x) as Hx.
      { intros (sub & Hsub & Hid). by apply (Hfind sub). }
      apply elem_of_cons in Hin as [->|Hin]; [done|].
      destruct IH as (before & after & -> & Hbefore & _); [done..| |].
      { intros t Ht. apply Huniq. by right. }
      exists (x :: before), after. split_and!; [done| |done].
      intros t [->|Ht]%elem_of_cons; auto.
Qed.

(** C5. Fallback law: for a subtopic id present in the dataset with owning
    topic [topic], [getSubtopicExplanation] equals [getTopicExplanation] and
    [getSubtopicQuestions] equals [getTopicQuestions], both at the id of the
    owning topic. *)
Theorem fallback_law (data : DashboardData.t) (subtopicId : string) (topic : Topic.t) :
  owning_topic data subtopicId topic →
  getSubtopicExplanation data subtopicId = getTopicExplanation data (Topic.id topic) ∧
  getSubtopicQuestions data subtopicId = getTopicQuestions data (Topic.id topic).
Proof.
  intros [subtopic Hfind]%owning_topic_found.
  unfold getSubtopicExplanation, getSubtopicQuestions. by rewrite Hfind.
Qed.

Lemma filter_all {A} (P : A → Prop) `{∀ x, Decision (P x)} (l : list A) :
  Forall P l → filter P l = l.
Proof.
  induction 1 as [|x l Hx _ IH]; [done|]. by rewrite filter_cons_True, IH.
Qed.

Lemma filter_sublist_mono {A} (P : A → Prop) `{∀ x, Decision (P x)} (l k : list A) :
  l `sublist_of` k → filter P l `sublist_of` filter P k.
Proof.
  induction 1 as [|x l k _ IH|x l k _ IH]; [done|..]; rewrite !filter_cons.
  - destruct (decide (P x)); [by constructor|done].
  - destruct (decide (P x)); [by constructor|done].
Qed.

(** C6. [getTopicQuestions data id] is exactly the subsequence of
    [data.quiz.questions] of the questions whose [topic_id] is [id], in the
    original order: it is a subsequence of the collection, all its elements
    have that [topic_id], and every subsequence of the collection with that
    property is a subsequence of it. *)
Theorem getTopicQuestions_exact (data : DashboardData.t) (topicId : string) :
  getTopicQuestions data topicId `sublist_of` questionsOf data ∧
  Forall (matches_topic topicId) (getTopicQuestions data topicId) ∧
  (∀ q, q ∈ getTopicQuestions data topicId ↔
        q ∈ questionsOf data ∧ Question.topic_id q = topicId) ∧
  (∀ l, l `sublist_of` questionsOf data → Forall (matches_topic topicId) l →
        l `sublist_of` getTopicQuestions data topicId).
Proof.
  unfold getTopicQuestions. fold (questionsOf data). split_and!.
  - apply sublist_filter.
  - apply Forall_forall. by intros q [? _]%list_elem_of_filter.
  - intros q. rewrite list_elem_of_filter. tauto.
  - intros l Hsub Hall.
    rewrite <-(filter_all (λ q, Question.topic_id q = topicId) l Hall).
    by apply filter_sublist_mono.
Qed.

Lemma getTopicExplanation_None data topicId :
  getTopicExplanation data topicId = None ↔
  no_explanation_entry data topicId ∨ empty_explanation_entry data topicId.
Proof.
  unfold getTopicExplanation, no_explanation_entry, empty_explanation_entry.
  fold (explanationsOf data).
  destruct (array_find _ (explanationsOf data)) as [e|] eqn:Hfind; simpl.
  - apply array_find_Some in Hfind as Hsplit.
    destruct Hsplit as (before & after & Hl & Hid & Hbefore).
    unfold truthy. case_bool_decide as Hempty.
    + split; [done|]. intros [Hnone|(before' & e' & after' & Hl' & Hbefore' & Hid' & Htext)].
      * destruct (Hnone e); [|done]. by apply array_find_elem_of in Hfind as [? _].
      * assert (array_find (λ exp, TopicExplanation.topic_id exp = topicId)
                  (explanationsOf data) = Some e') as Hfind'.
        { apply array_find_Some. by exists before', after'. }
        congruence.
    + split; [|done]. intros _. right. exists before, e, after.
      split_and!; [done..|]. by destruct (decide (TopicExplanation.explanation e = "")).
  - split; [|done]. intros _. left. by rewrite array_find_None in Hfind.
Qed.

(** C10. [getTopicExplanation] returns nothing when no explanation entry has
    the topic id and also when the first entry with that id has the empty
    string as its text (and in no other case); [getSubtopicExplanation]
    returns nothing in the same cases for the topic that holds the subtopic
    (and when the subtopic id is not found). *)
Theorem explanation_absent_when_missing_or_empty
    (data : DashboardData.t) (topicId subtopicId : string) :
  (getTopicExplanation data topicId = None ↔
     no_explanation_entry data topicId ∨ empty_explanation_entry data topicId) ∧
  (getSubtopicExplanation data subtopicId = None ↔
     findSubtopicById data subtopicId = None ∨
     ∃ topic subtopic,
       findSubtopicById data subtopicId = Some (topic, subtopic) ∧
       (no_explanation_entry data (Topic.id topic) ∨
        empty_explanation_entry data (Topic.id topic))).
Proof.
  split; [apply getTopicExplanation_None|].
  unfold getSubtopicExplanation.
  destruct (findSubtopicById data subtopicId) as [[topic subtopic]|].
  - rewrite getTopicExplanation_None. split.
    + intros Hcase. right. by exists topic, subtopic.
    + intros [?|(t & s & [= <- <-] & Hcase)]; done.
  - split; [by left|done].
Qed.

(** ** Strings and quiz keys *)

Lemma string_app_length (s t : string) :
  String.length (s +:+ t) = String.length s + String.length t.
Proof.
  induction s as [|c s IH]; [done|].
  change (S (String.length (s +:+ t)) = S (String.length s + String.length t)).
  by rewrite IH.
Qed.

Lemma string_app_inj_r (t s1 s2 : string) : s1 +:+ t = s2 +:+ t → s1 = s2.
Proof.
  revert s2. induction s1 as [|c s1 IH]; intros [|c' s2] Heq.
  - done.
  - apply (f_equal String.length) in Heq.
    rewrite !string_app_length in Heq. simpl in Heq. lia.
  - apply (f_equal String.length) in Heq.
    rewrite !string_app_length in Heq. simpl in Heq. lia.
  - change (String c (s1 +:+ t) = String c' (s2 +:+ t)) in Heq.
    injection Heq as -> Heq. f_equal. by apply IH.
Qed.

Lemma quizKey_selection_inj (s1 s2 : option string) (i : nat) :
  quizKey s1 i = quizKey s2 i → default "null" s1 = default "null" s2.
Proof. unfold quizKey. apply string_app_inj_r. Qed.

Lemma quizKey_index_inj (s : option string) (i j : nat) :
  quizKey s i = quizKey s j → i = j.
Proof.
  unfold quizKey. intros Heq.
  apply (inj (String.append _)) in Heq. apply (inj (String.append _)) in Heq.
  by apply (inj pretty) in Heq.
Qed.

(** ** The render guard and the mounted quiz *)

Lemma render_active p k question answers :
  render p = QuizActive k question answers ↔
  ∃ item, Page.questionStack p !! Page.currentQuestionIndex p = Some item ∧
          k = quizKey (Page.selectedSubtopicId p) (Page.currentQuestionIndex p) ∧
          question = QuestionStackItem.question item ∧
          answers = QuestionStackItem.answers item.
Proof.
  unfold render. cbv zeta.
  destruct (Page.questionStack p !! Page.currentQuestionIndex p) as [item|] eqn:Hlook.
  - apply lookup_lt_Some in Hlook as Hlt.
    assert (0 < length (Page.questionStack p)) by lia.
    rewrite 2 bool_decide_eq_true_2 by done. simpl. split.
    + intros [= <- <- <-]. by exists item.
    + intros (item' & [= <-] & -> & -> & ->). done.
  - apply lookup_ge_None in Hlook as Hge.
    assert (¬ Page.currentQuestionIndex p < length (Page.questionStack p)) by lia.
    rewrite (bool_decide_eq_false_2 (Page.currentQuestionIndex p < _)) by done.
    rewrite andb_false_r. split; [by destruct (Page.questionsComplete p)|].
    by intros (item & ? & _).
Qed.

Lemma reconcile_mounted_ok p q : mounted_ok (App.mk p (reconcile p q)).
Proof.
  unfold mounted_ok, reconcile; simpl.
  destruct (render p) as [k question answers| |]; [|done..].
  destruct q as [m|]; [|by eexists]. case_bool_decide; by eexists.
Qed.

Lemma commit_mounted_ok p q b : mounted_ok (commit p q b).
Proof. unfold commit. destruct b; apply reconcile_mounted_ok. Qed.

(** A mounted quiz that the page still renders under the same key and
    question keeps its local state. *)
Lemma reconcile_same p m answers :
  render p = QuizActive (Mounted.key m) (Mounted.question m) answers →
  reconcile p (Some m) = Some m.
Proof.
  intros Hrender. unfold reconcile. rewrite Hrender.
  rewrite 2 bool_decide_eq_true_2 by done. by destruct m.
Qed.

(** Whatever is mounted after a reconciliation is either the old local state
    or the initial one. *)
Lemma reconcile_state p q m :
  reconcile p q = Some m →
  Mounted.state m = Quiz.initial ∨
  ∃ m0, q = Some m0 ∧ Mounted.key m0 = Mounted.key m ∧ Mounted.state m = Mounted.state m0.
Proof.
  unfold reconcile. destruct (render p) as [k question answers| |]; [|done..].
  destruct q as [m0|]; [|intros [= <-]; by left].
  case_bool_decide as Hkey; [|intros [= <-]; by left].
  case_bool_decide; intros [= <-]; [right|by left]. by exists m0.
Qed.

(** ** The invariant of reachable states *)

Lemma PageInv_initial : PageInv Page.initial.
Proof. split_and!; [done..|by left]. Qed.

Lemma PageInv_questionStackEffect p : PageInv p → PageInv (questionStackEffect p).
Proof.
  intros Hinv. unfold questionStackEffect.
  destruct (Page.dashboardData p) as [d|] eqn:Hd; [|done].
  destruct (Page.selectedSubtopicId p) as [sid|] eqn:Hsid; [|done].
  destruct (truthy sid); [|done].
  case_bool_decide as Hlen; (split_and!; simpl; [by rewrite ?Hsid|by rewrite ?Hd|]).
  - right. by rewrite length_fmap.
  - by left.
Qed.

Lemma PageInv_onDataLoaded data p : PageInv p → PageInv (onDataLoaded data p).
Proof.
  intros (Hsel & Hdata & Hidx). destruct data as [d|]; [|done]. simpl.
  destruct (DashboardData.topics _) as [|topic0 ?]; [by split_and!|].
  destruct (Topic.subtopics topic0); by split_and!.
Qed.

Lemma PageInv_handleSubtopicClick subtopicId pageReference p :
  PageInv p → PageInv (handleSubtopicClick subtopicId pageReference p).
Proof.
  intros (Hsel & Hdata & Hidx). unfold handleSubtopicClick.
  destruct (positive_number pageReference); by split_and!.
Qed.

Lemma PageInv_handleAnswerSelect explanation p :
  PageInv p → PageInv (handleAnswerSelect explanation p).
Proof. by intros (Hsel & Hdata & Hidx). Qed.

Lemma PageInv_handleNextQuestion p : PageInv p → PageInv (handleNextQuestion p).
Proof.
  intros (Hsel & Hdata & Hidx). unfold handleNextQuestion.
  case_bool_decide as Hlt.
  - assert (PageInv (setCurrentQuestionIndex (Page.currentQuestionIndex p + 1) p)) as Hinv.
    { split_and!; [done..|]. right. simpl. lia. }
    destruct (Page.dashboardData p); [|done].
    destruct (Page.selectedSubtopicId p) as [sid|]; [|done].
    by destruct (truthy sid).
  - by split_and!.
Qed.

Lemma Inv_commit p q b : PageInv p → Inv (commit p q b).
Proof.
  intros Hp. split; [apply commit_mounted_ok|].
  unfold commit. destruct b; [|done]. by apply PageInv_questionStackEffect.
Qed.

Lemma Inv_initial : Inv App.initial.
Proof. split; [done|apply PageInv_initial]. Qed.

Lemma Inv_step a e : Inv a → Inv (step a e).
Proof.
  intros [Hm Hp]. destruct e as [[d|]|subtopicId pageReference|n|]; [|done|..]; unfold step.
  - by apply Inv_commit, PageInv_onDataLoaded.
  - by apply Inv_commit, PageInv_handleSubtopicClick.
  - destruct (App.quiz a) as [m|] eqn:Hq; [|by split].
    destruct (render (App.page a)) as [k question answers| |] eqn:Hr;
      [|by split..].
    destruct (answers !! n) as [answer|]; [|by split].
    destruct (handleAnswerClick _ _ _ _ _) as [q' [explanation|]];
      apply Inv_commit; [by apply PageInv_handleAnswerSelect|done].
  - destruct (App.quiz a) as [m|] eqn:Hq; [|by split].
    destruct (handleNext _); [|by split].
    by apply Inv_commit, PageInv_handleNextQuestion.
Qed.

Lemma Inv_run a events : Inv a → Inv (run a events).
Proof.
  revert a. induction events as [|e events IH]; intros a Ha; [done|].
  apply IH. by apply Inv_step.
Qed.

Lemma reachable_Inv a : reachable a → Inv a.
Proof. intros [events ->]. apply Inv_run, Inv_initial. Qed.

Lemma mounted_key a m :
  mounted_ok a → App.quiz a = Some m →
  ∃ item,
    Page.questionStack (App.page a) !! Page.currentQuestionIndex (App.page a) = Some item ∧
    render (App.page a) =
      QuizActive (Mounted.key m) (Mounted.question m) (QuestionStackItem.answers item) ∧
    Mounted.key m =
      quizKey (Page.selectedSubtopicId (App.page a)) (Page.currentQuestionIndex (App.page a)).
Proof.
  unfold mounted_ok. intros Hm Hq.
  destruct (render (App.page a)) as [k question answers| |] eqn:Hr; [|congruence..].
  destruct Hm as [st Hst]. rewrite Hq in Hst. injection Hst as ->.
  apply render_active in Hr as (item & Hlook & -> & -> & ->). by exists item.
Qed.

(** ** Selection *)

Lemma questionStackEffect_frame p :
  Page.dashboardData (questionStackEffect p) = Page.dashboardData p ∧
  Page.selectedSubtopicId (questionStackEffect p) = Page.selectedSubtopicId p ∧
  Page.pdfPageNumber (questionStackEffect p) = Page.pdfPageNumber p.
Proof.
  unfold questionStackEffect.
  destruct (Page.dashboardData p) eqn:Hd; [|done].
  destruct (Page.selectedSubtopicId p) as [sid|] eqn:Hsel; [|done].
  destruct (truthy sid); [|done]. by case_bool_decide.
Qed.

Lemma commit_frame p q b :
  Page.dashboardData (App.page (commit p q b)) = Page.dashboardData p ∧
  Page.selectedSubtopicId (App.page (commit p q b)) = Page.selectedSubtopicId p ∧
  Page.pdfPageNumber (App.page (commit p q b)) = Page.pdfPageNumber p.
Proof. unfold commit. destruct b; [apply questionStackEffect_frame|done]. Qed.

(** The effect on a loaded dataset and a non-empty selected id. *)
Lemma questionStackEffect_recomputes p d subtopicId :
  Page.dashboardData p = Some d →
  Page.selectedSubtopicId p = Some subtopicId →
  subtopicId ≠ "" →
  let p' := questionStackEffect p in
  Page.questionStack p' = convertQuestionToQuizFormat <$> getSubtopicQuestions d subtopicId ∧
  Page.currentQuestionIndex p' = 0 ∧
  Page.questionsComplete p' = false ∧
  Page.explanationText p' =
    match getSubtopicQuestions d subtopicId with
    | [] => noQuestions
    | _ :: _ => or_else (getSubtopicExplanation d subtopicId) noExplanation
    end.
Proof.
  intros Hd Hsel Hne. unfold questionStackEffect. rewrite Hd, Hsel.
  unfold truthy. rewrite bool_decide_eq_true_2 by done.
  by destruct (getSubtopicQuestions d subtopicId) as [|q qs].
Qed.

Lemma progression_recomputed p (items : list QuestionStackItem.t) :
  Page.questionStack p = items →
  Page.currentQuestionIndex p = 0 →
  Page.questionsComplete p = false →
  progression p = match items with [] => Empty | _ :: _ => InProgress 0 end.
Proof. unfold progression. intros -> -> ->. by destruct (Page.questionStack p). Qed.

(** Selecting another subtopic with a non-empty id, from any reachable state
    with a dataset: the question stack is the converted question list of the
    new selection, the progression restarts at index 0 (or is empty), and no
    answer is recorded for the displayed question. *)
Lemma selection_change_recomputes a d subtopicId pageReference :
  Inv a →
  Page.dashboardData (App.page a) = Some d →
  Page.selectedSubtopicId (App.page a) ≠ Some subtopicId →
  subtopicId ≠ "" →
  let a' := step a (SubtopicClick subtopicId pageReference) in
  Page.selectedSubtopicId (App.page a') = Some subtopicId ∧
  Page.questionStack (App.page a') =
    convertQuestionToQuizFormat <$> getSubtopicQuestions d subtopicId ∧
  progression (App.page a') =
    match getSubtopicQuestions d subtopicId with
    | [] => Empty
    | _ :: _ => InProgress 0
    end ∧
  unanswered a'.
Proof.
  intros [Hm (Hnosel & _ & _)] Hd Hchange Hne a'. subst a'. unfold step.
  rewrite bool_decide_eq_true_2 by done.
  set (p := handleSubtopicClick subtopicId pageReference (App.page a)).
  assert (Page.dashboardData p = Some d ∧ Page.selectedSubtopicId p = Some subtopicId ∧
          Page.questionStack p = Page.questionStack (App.page a) ∧
          Page.currentQuestionIndex p = Page.currentQuestionIndex (App.page a))
    as (Hpd & Hpsel & Hpstack & Hpidx).
  { unfold p, handleSubtopicClick. by destruct (positive_number pageReference). }
  destruct (questionStackEffect_recomputes p d subtopicId Hpd Hpsel Hne)
    as (Hstack & Hidx & Hdone & _).
  unfold commit. cbn [App.page App.quiz]. split_and!.
  - by destruct (questionStackEffect_frame p) as (_ & -> & _).
  - done.
  - rewrite (progression_recomputed _ _ Hstack Hidx Hdone).
    by destruct (getSubtopicQuestions d subtopicId).
  - unfold unanswered. cbn [App.quiz].
    destruct (reconcile (questionStackEffect p) _) as [m2|] eqn:Hr2; [|done].
    apply reconcile_state in Hr2 as [?|(m1 & Hr1 & _ & ->)]; [done|].
    pose proof (reconcile_mounted_ok p (App.quiz a)) as Hm1.
    apply reconcile_state in Hr1 as Hcase. destruct Hcase as [?|(m0 & Hq0 & Hkey & _)]; [done|].
    exfalso.
    destruct (mounted_key _ _ Hm Hq0) as (item0 & Hlook0 & _ & Hkey0).
    destruct (mounted_key _ _ Hm1 Hr1) as (_ & _ & _ & Hkey1). cbn [App.page] in Hkey1.
    rewrite Hkey0, Hkey1, Hpsel, Hpidx in Hkey.
    apply quizKey_selection_inj in Hkey.
    destruct (Page.selectedSubtopicId (App.page a)) as [old|] eqn:Hold; simpl in Hkey.
    + by subst old.
    + rewrite Hnosel in Hlook0 by done. done.
Qed.

(** ** Answer submission *)

Lemma render_setExplanationText text p : render (setExplanationText text p) = render p.
Proof. reflexivity. Qed.

Lemma currentAnswers_mounted a m :
  mounted_ok a → App.quiz a = Some m →
  render (App.page a) =
    QuizActive (Mounted.key m) (Mounted.question m) (currentAnswers (App.page a)).
Proof.
  intros Hm Hq. destruct (mounted_key a m Hm Hq) as (item & _ & Hr & _).
  unfold currentAnswers. by rewrite Hr.
Qed.

(** The first submission on a question (no truthy answer id recorded yet). *)
Lemma first_answer a m n answer :
  mounted_ok a → App.quiz a = Some m →
  truthy_opt (Quiz.selectedAnswer (Mounted.state m)) = false →
  currentAnswers (App.page a) !! n = Some answer →
  step a (AnswerClick n) =
    App.mk
      (setExplanationText (Answer.explanation answer) (App.page a))
      (Some (Mounted.mk (Mounted.key m) (Mounted.question m)
               (Quiz.mk (Some (Answer.id answer))
                  (if Answer.isCorrect answer then Some (Answer.id answer)
                   else match array_find (λ x, Answer.isCorrect x = true)
                                (currentAnswers (App.page a)) with
                        | Some correct => Some (Answer.id correct)
                        | None => Quiz.correctAnswerId (Mounted.state m)
                        end)
                  (Some (Answer.explanation answer))))).
Proof.
  intros Hm Hq Hfalsy Hn. pose proof (currentAnswers_mounted a m Hm Hq) as Hr.
  unfold step. rewrite Hq, Hr, Hn. unfold handleAnswerClick. rewrite Hfalsy.
  unfold commit, handleAnswerSelect. f_equal.
  apply (reconcile_same _ _ (currentAnswers (App.page a))).
  by rewrite render_setExplanationText.
Qed.

(** A submission on a question whose recorded answer id is truthy. *)
Lemma answer_click_ignored a m n :
  mounted_ok a → App.quiz a = Some m →
  truthy_opt (Quiz.selectedAnswer (Mounted.state m)) = true →
  step a (AnswerClick n) = a.
Proof.
  intros Hm Hq Htruthy. pose proof (currentAnswers_mounted a m Hm Hq) as Hr.
  unfold step. rewrite Hq, Hr.
  destruct (currentAnswers (App.page a) !! n) as [answer|]; [|done].
  unfold handleAnswerClick. rewrite Htruthy. unfold commit.
  rewrite (reconcile_same _ _ (currentAnswers (App.page a))) by (by destruct m).
  destruct a as [p q]. simpl in *. subst q. by destruct m.
Qed.

(** Answer submission is one-shot for every choice whose id is not the empty
    string. *)
Lemma answer_one_shot a m n k answer :
  mounted_ok a → App.quiz a = Some m →
  truthy_opt (Quiz.selectedAnswer (Mounted.state m)) = false →
  currentAnswers (App.page a) !! n = Some answer →
  Answer.id answer ≠ "" →
  step (step a (AnswerClick n)) (AnswerClick k) = step a (AnswerClick n).
Proof.
  intros Hm Hq Hfalsy Hn Hid.
  rewrite (first_answer a m n answer Hm Hq Hfalsy Hn).
  eapply answer_click_ignored; [|done|].
  - rewrite <-(first_answer a m n answer Hm Hq Hfalsy Hn).
    unfold step. rewrite Hq, (currentAnswers_mounted a m Hm Hq), Hn.
    destruct (handleAnswerClick _ _ _ _ _). apply commit_mounted_ok.
  - simpl. unfold truthy. by rewrite bool_decide_eq_true_2.
Qed.

Lemma convert_no_correct (question : Question.t) :
  Forall (λ c, Choice.is_correct c = false) (Question.choices question) →
  Forall (λ x, Answer.isCorrect x = false)
    (QuestionStackItem.answers (convertQuestionToQuizFormat question)).
Proof.
  intros Hall. simpl. apply Forall_fmap. by eapply Forall_impl; [done|].
Qed.

(** C4, as amended. On the first answer submission for the displayed
    question, the explanation text of the page becomes the explanation of the
    picked choice, whether or not the choice is correct, and the panel shows
    it when it is not empty and shows the placeholder when it is empty; and
    when no choice of the question is marked correct, no correct answer id is
    recorded, no button gets the style of a correct answer, and the panel
    shows the same text (the handler is total: nothing is raised). *)
Theorem first_answer_shows_picked_explanation_or_placeholder
    (a : App.t) (m : Mounted.t) (n : nat) (answer : Answer.t) :
  mounted_ok a →
  App.quiz a = Some m →
  Mounted.state m = Quiz.initial →
  currentAnswers (App.page a) !! n = Some answer →
  let a' := step a (AnswerClick n) in
  Page.explanationText (App.page a') = Answer.explanation answer ∧
  (Answer.explanation answer ≠ "" →
   Explanation (Page.explanationText (App.page a')) = Answer.explanation answer) ∧
  (Answer.explanation answer = "" →
   Explanation (Page.explanationText (App.page a')) = noExplanation) ∧
  (∃ st, quizState a' = Some st ∧
         Quiz.selectedAnswer st = Some (Answer.id answer) ∧
         Quiz.selectedExplanation st = Some (Answer.explanation answer)) ∧
  (Forall (λ x, Answer.isCorrect x = false) (currentAnswers (App.page a)) →
   ∃ st, quizState a' = Some st ∧
         Quiz.correctAnswerId st = None ∧
         Quiz.selectedExplanation st = Some (Answer.explanation answer) ∧
         (∀ x, x ∈ currentAnswers (App.page a) → getButtonStyle st x ≠ Green) ∧
         (Answer.explanation answer ≠ "" →
          Explanation (Page.explanationText (App.page a')) = Answer.explanation answer) ∧
         (Answer.explanation answer = "" →
          Explanation (Page.explanationText (App.page a')) = noExplanation)).
Proof.
  intros Hm Hq Hinit Hn a'. subst a'.
  rewrite (first_answer a m n answer Hm Hq) by (by rewrite ?Hinit).
  cbn [App.page App.quiz quizState fmap option_fmap option_map Mounted.state].
  assert (Answer.explanation answer ≠ "" →
          Explanation (Page.explanationText
                         (setExplanationText (Answer.explanation answer) (App.page a)))
          = Answer.explanation answer) as Hshown.
  { intros Hne. simpl. unfold Explanation, truthy. by rewrite bool_decide_eq_true_2. }
  assert (Answer.explanation answer = "" →
          Explanation (Page.explanationText
                         (setExplanationText (Answer.explanation answer) (App.page a)))
          = noExplanation) as Hplaceholder.
  { intros Hempty. simpl. by rewrite Hempty. }
  split; [done|]. split; [done|]. split; [done|]. split; [by eexists|].
  intros Hnone. eexists. split; [done|]. rewrite Hinit. simpl.
  assert (Answer.isCorrect answer = false) as ->.
  { rewrite Forall_forall in Hnone. apply Hnone. by eapply list_elem_of_lookup_2. }
  assert (array_find (λ x, Answer.isCorrect x = true) (currentAnswers (App.page a)) = None)
    as ->.
  { apply array_find_None. intros y Hy. rewrite Forall_forall in Hnone.
    rewrite (Hnone y Hy). done. }
  split_and!; [done..| |done|done]. intros x Hx. unfold getButtonStyle.
  rewrite Forall_forall in Hnone. rewrite (Hnone x Hx). by destruct (negb _).
Qed.

(** ** Advancing *)

Lemma progression_InProgress p index :
  progression p = InProgress index ↔
  Page.questionStack p ≠ [] ∧ Page.questionsComplete p = false ∧
  Page.currentQuestionIndex p = index.
Proof.
  unfold progression. destruct (Page.questionStack p) as [|item items].
  - split; [done|]. by intros [? _].
  - destruct (Page.questionsComplete p).
    + split; [done|]. by intros (_ & ? & _).
    + split; [by intros [= <-]|]. by intros (_ & _ & ->).
Qed.

Lemma handleNextQuestion_next p :
  Page.currentQuestionIndex p + 1 < length (Page.questionStack p) →
  let p' := handleNextQuestion p in
  Page.questionStack p' = Page.questionStack p ∧
  Page.currentQuestionIndex p' = Page.currentQuestionIndex p + 1 ∧
  Page.questionsComplete p' = Page.questionsComplete p ∧
  Page.selectedSubtopicId p' = Page.selectedSubtopicId p ∧
  ∀ d subtopicId,
    Page.dashboardData p = Some d → Page.selectedSubtopicId p = Some subtopicId →
    subtopicId ≠ "" →
    Page.explanationText p' = or_else (getSubtopicExplanation d subtopicId) noExplanation.
Proof.
  intros Hlt. unfold handleNextQuestion.
  assert (Z.of_nat (Page.currentQuestionIndex p)
          < Z.of_nat (length (Page.questionStack p)) - 1)%Z by lia.
  rewrite bool_decide_eq_true_2 by done.
  destruct (Page.dashboardData p) as [d|] eqn:Hd; [|by split_and!].
  destruct (Page.selectedSubtopicId p) as [sid|] eqn:Hsel; [|by split_and!].
  unfold truthy. case_bool_decide as Hsid; simpl.
  - split_and!; [done..|]. by intros ?? [= <-] [= <-] _.
  - split_and!; [done..|]. intros ?? _ [= <-] ?. by destruct Hsid.
Qed.

Lemma handleNextQuestion_last p :
  Page.currentQuestionIndex p + 1 = length (Page.questionStack p) →
  handleNextQuestion p = setExplanationText allAnswered (setQuestionsComplete true p).
Proof.
  intros Hlast. unfold handleNextQuestion.
  assert (¬ (Z.of_nat (Page.currentQuestionIndex p)
             < Z.of_nat (length (Page.questionStack p)) - 1)%Z) by lia.
  by rewrite bool_decide_eq_false_2.
Qed.

(** Advancing from [InProgress index] once an answer with a non-empty id is
    recorded. *)
Lemma advance_answered a m index :
  mounted_ok a →
  progression (App.page a) = InProgress index →
  App.quiz a = Some m →
  truthy_opt (Quiz.selectedAnswer (Mounted.state m)) = true →
  let a' := step a NextClick in
  (index + 1 < length (Page.questionStack (App.page a)) →
     progression (App.page a') = InProgress (index + 1) ∧
     unanswered a' ∧
     ∀ d subtopicId,
       Page.dashboardData (App.page a) = Some d →
       Page.selectedSubtopicId (App.page a) = Some subtopicId →
       subtopicId ≠ "" →
       Page.explanationText (App.page a') =
         or_else (getSubtopicExplanation d subtopicId) noExplanation) ∧
  (index + 1 = length (Page.questionStack (App.page a)) →
     progression (App.page a') = Complete ∧
     Page.explanationText (App.page a') = allAnswered).
Proof.
  intros Hm (Hstack & Hdone & Hidx)%progression_InProgress Hq Htruthy a'. subst a'.
  unfold step. rewrite Hq. unfold handleNext. rewrite Htruthy.
  unfold commit. cbn [App.page App.quiz]. split.
  - intros Hlt. rewrite <-Hidx in Hlt.
    destruct (handleNextQuestion_next _ Hlt) as (Hs' & Hi' & Hd' & Hsel' & Htext).
    split_and!.
    + apply progression_InProgress. rewrite Hs', Hi', Hd', Hidx. done.
    + unfold unanswered. cbn [App.quiz].
      destruct (reconcile _ _) as [m'|] eqn:Hr; [|done].
      pose proof (reconcile_mounted_ok (handleNextQuestion (App.page a)) (Some m)) as Hm'.
      rewrite Hr in Hm'.
      apply reconcile_state in Hr as [?|(m0 & [= <-] & Hkey & _)]; [done|]. exfalso.
      destruct (mounted_key _ _ Hm Hq) as (_ & _ & _ & Hkey0).
      destruct (mounted_key _ _ Hm' eq_refl) as (_ & _ & _ & Hkey1).
      cbn [App.page] in Hkey1. rewrite Hkey0, Hkey1, Hsel', Hi' in Hkey.
      apply quizKey_index_inj in Hkey. lia.
    + done.
  - intros Hlast. rewrite <-Hidx in Hlast. rewrite (handleNextQuestion_last _ Hlast).
    split; [|done]. unfold progression. simpl.
    by destruct (Page.questionStack (App.page a)).
Qed.

(** Advancing when no answer is recorded does nothing. *)
Lemma advance_unanswered a :
  ¬ answered a → step a NextClick = a.
Proof.
  intros Hun. unfold step. destruct (App.quiz a) as [m|] eqn:Hq; [|done].
  unfold handleNext.
  destruct (Quiz.selectedAnswer (Mounted.state m)) as [s|] eqn:Hs; [|done].
  destruct Hun. exists m. by rewrite Hs.
Qed.

(** C2. Checked at a concrete input, where the code departs from the rule:
    with the dataset [Sample.emptyIds] the first question has a choice whose
    id is the empty string; once that choice is picked the question is
    answered and a further question exists, yet the Next control leaves the
    state unchanged instead of moving to the second question. *)
Theorem advance_after_empty_id_answer_is_ignored :
  let a := step Sample.loadedEmptyIds (AnswerClick 0) in
  progression (App.page a) = InProgress 0 ∧
  length (Page.questionStack (App.page a)) = 2 ∧
  answered a ∧
  quizState a = Some (Quiz.mk (Some "") (Some "b") (Some "A graph has no root.")) ∧
  step a NextClick = a.
Proof.
  vm_compute. split_and!; [reflexivity..| |reflexivity|reflexivity].
  eexists. split; [reflexivity|]. by eexists.
Qed.

(** C3. Checked at a concrete input, where the code departs from the rule:
    after the choice with the empty id of [Sample.emptyIds] has been picked,
    picking the other choice of the same question is accepted: the recorded
    answer, the recorded explanation and the explanation text all change. *)
Theorem second_answer_after_empty_id_is_accepted :
  let a1 := step Sample.loadedEmptyIds (AnswerClick 0) in
  let a2 := step a1 (AnswerClick 1) in
  quizState a1 = Some (Quiz.mk (Some "") (Some "b") (Some "A graph has no root.")) ∧
  Page.explanationText (App.page a1) = "A graph has no root." ∧
  quizState a2 = Some (Quiz.mk (Some "b") (Some "b") (Some "A tree has a root.")) ∧
  Page.explanationText (App.page a2) = "A tree has a root." ∧
  a2 ≠ a1.
Proof. vm_compute. split_and!; [reflexivity..|discriminate]. Qed.

(** C1. Checked at a concrete input, where the code departs from the rule:
    in [Sample.emptyIds] the subtopic of the second topic has the empty
    string as its id and its topic has no questions; selecting it while the
    first subtopic shows its first question changes the selected id but
    leaves the question stack and the progression of the previous selection
    in place instead of entering [Empty]. *)
Theorem selecting_empty_id_keeps_previous_questions :
  let a := Sample.loadedEmptyIds in
  let a' := step a (SubtopicClick "" (Some 0%Z)) in
  Page.selectedSubtopicId (App.page a) = Some "s1" ∧
  Page.selectedSubtopicId (App.page a') = Some "" ∧
  getSubtopicQuestions Sample.emptyIds "" = [] ∧
  progression (App.page a') = InProgress 0 ∧
  Page.questionStack (App.page a') = Page.questionStack (App.page a) ∧
  Page.questionStack (App.page a') ≠ [].
Proof. vm_compute. split_and!; [reflexivity..|discriminate]. Qed.

(** ** Page navigation and initialisation *)

(** C8. Selecting a subtopic sets the current PDF page to its page reference
    when that reference is a positive number, and leaves the current PDF page
    as it was when the reference is zero or absent. *)
Theorem subtopic_click_pdf_page (a : App.t) (subtopicId : string) :
  (∀ N : positive,
     Page.pdfPageNumber (App.page (step a (SubtopicClick subtopicId (Some (Z.pos N)))))
     = Some (Z.pos N)) ∧
  Page.pdfPageNumber (App.page (step a (SubtopicClick subtopicId (Some 0%Z))))
  = Page.pdfPageNumber (App.page a) ∧
  Page.pdfPageNumber (App.page (step a (SubtopicClick subtopicId None)))
  = Page.pdfPageNumber (App.page a).
Proof.
  split_and!; [intros N|..]; unfold step;
    (etrans; [apply commit_frame|]); reflexivity.
Qed.

(** C9. When the dataset has loaded: if it has a first topic with a first
    subtopic, that subtopic is the initial selection; if it has no topics, or
    its first topic has no subtopics, the selection stays absent and the
    question state is [Empty] (the placeholder is rendered, no quiz is
    mounted); the load handler is total, so nothing is raised. *)
Theorem initial_selection (data : DashboardData.t) :
  let a := step App.initial (DataLoaded (Some data)) in
  Page.dashboardData (App.page a) = Some data ∧
  (∀ topic0 topics sub0 subs,
     topicsOf data = topic0 :: topics →
     Topic.subtopics topic0 = sub0 :: subs →
     Page.selectedSubtopicId (App.page a) = Some (Subtopic.id sub0)) ∧
  (topicsOf data = [] ∨
   (∃ topic0 topics, topicsOf data = topic0 :: topics ∧ Topic.subtopics topic0 = []) →
   Page.selectedSubtopicId (App.page a) = None ∧
   progression (App.page a) = Empty ∧
   render (App.page a) = NoQuestions ∧
   App.quiz a = None).
Proof.
  intros a. subst a. unfold step.
  destruct (commit_frame (onDataLoaded (Some data) (App.page App.initial))
              (App.quiz App.initial) true) as (Hd & Hsel & _).
  split_and!.
  - rewrite Hd. unfold onDataLoaded.
    destruct (DashboardData.topics _) as [|topic0 ?]; [done|].
    by destruct (Topic.subtopics topic0).
  - intros topic0 topics sub0 subs Htopics Hsubs. rewrite Hsel.
    unfold topicsOf in Htopics. unfold onDataLoaded. by rewrite Htopics, Hsubs.
  - intros Hnone.
    assert (onDataLoaded (Some data) (App.page App.initial)
            = setDashboardData (Some data) Page.initial) as ->.
    { unfold topicsOf in Hnone. unfold onDataLoaded.
      destruct Hnone as [->|(topic0 & topics & -> & ->)]; done. }
    done.
Qed.

(** ** The properties at the example dataset *)

Lemma fallback_law_witness :
  owning_topic Sample.data "s1" Sample.t1 ∧
  getSubtopicExplanation Sample.data "s1" = getTopicExplanation Sample.data "t1" ∧
  getSubtopicQuestions Sample.data "s1" = getTopicQuestions Sample.data "t1".
Proof.
  assert (owning_topic Sample.data "s1" Sample.t1) as Howns.
  { exists [], []. split; [reflexivity|]. split.
    - intros t Ht. inversion Ht.
    - exists Sample.s1. split; [left|reflexivity]. }
  split; [exact Howns|].
  exact (fallback_law Sample.data "s1" Sample.t1 Howns).
Defined.

Lemma first_answer_shows_picked_explanation_or_placeholder_witness :
  mounted_ok Demo.loadedNoCorrect ∧
  App.quiz Demo.loadedNoCorrect = Some Demo.m5 ∧
  Mounted.state Demo.m5 = Quiz.initial ∧
  currentAnswers (App.page Demo.loadedNoCorrect) !! 1 = Some Demo.b5 ∧
  Forall (λ x, Answer.isCorrect x = false) (currentAnswers (App.page Demo.loadedNoCorrect)) ∧
  Page.explanationText (App.page (step Demo.loadedNoCorrect (AnswerClick 1)))
  = "A cycle is not a tree." ∧
  ∃ st, quizState (step Demo.loadedNoCorrect (AnswerClick 1)) = Some st ∧
        Quiz.correctAnswerId st = None ∧
        (∀ x, x ∈ currentAnswers (App.page Demo.loadedNoCorrect) →
              getButtonStyle st x ≠ Green) ∧
        Explanation (Page.explanationText
                       (App.page (step Demo.loadedNoCorrect (AnswerClick 1))))
        = "A cycle is not a tree.".
Proof.
  assert (mounted_ok Demo.loadedNoCorrect) as Hm.
  { vm_compute. eexists. reflexivity. }
  assert (App.quiz Demo.loadedNoCorrect = Some Demo.m5) as Hq by reflexivity.
  assert (Mounted.state Demo.m5 = Quiz.initial) as Hinit by reflexivity.
  assert (currentAnswers (App.page Demo.loadedNoCorrect) !! 1 = Some Demo.b5) as Hn
    by reflexivity.
  assert (Forall (λ x, Answer.isCorrect x = false)
            (currentAnswers (App.page Demo.loadedNoCorrect))) as Hnone
    by (repeat constructor).
  assert (Answer.explanation Demo.b5 ≠ "") as Hne by discriminate.
  destruct (first_answer_shows_picked_explanation_or_placeholder
              Demo.loadedNoCorrect Demo.m5 1 Demo.b5 Hm Hq Hinit Hn)
    as (Htext & _ & _ & _ & Hhalf).
  destruct (Hhalf Hnone) as (st & Hst & Hcorrect & _ & Hstyle & Hshown & _).
  split_and!; [exact Hm|exact Hq|exact Hinit|exact Hn|exact Hnone|exact Htext|].
  exists st. split_and!; [exact Hst|exact Hcorrect|exact Hstyle|exact (Hshown Hne)].
Defined.

(** The claim as first stated fails where the picked choice has the empty
    string as explanation: in [Demo.loadedNoCorrect] the first choice has,
    and after it is picked the panel shows the placeholder, not that (empty)
    explanation. *)
Lemma picked_empty_explanation_shows_placeholder :
  mounted_ok Demo.loadedNoCorrect ∧
  App.quiz Demo.loadedNoCorrect = Some Demo.m5 ∧
  Mounted.state Demo.m5 = Quiz.initial ∧
  currentAnswers (App.page Demo.loadedNoCorrect) !! 0 = Some Demo.a5 ∧
  Answer.explanation Demo.a5 = "" ∧
  Page.explanationText (App.page (step Demo.loadedNoCorrect (AnswerClick 0))) = "" ∧
  Explanation (Page.explanationText (App.page (step Demo.loadedNoCorrect (AnswerClick 0))))
  = "No explanation available." ∧
  Explanation (Page.explanationText (App.page (step Demo.loadedNoCorrect (AnswerClick 0))))
  ≠ Answer.explanation Demo.a5.
Proof.
  split_and!; [|reflexivity..|discriminate].
  vm_compute. eexists. reflexivity.
Qed.

(** The walk through the example dataset: the first subtopic is selected on
    load and the first of two questions is shown; answering it and advancing
    shows the second question under the topic explanation; answering and
    advancing again completes the stack; the PDF page is set only by an
    explicit selection. *)
Example end_to_end :
  let a0 := Sample.loaded in
  let a1 := run a0 [AnswerClick 1; NextClick] in
  let a2 := run a1 [AnswerClick 0; NextClick] in
  let a3 := step a2 (SubtopicClick "s1" (Some 3%Z)) in
  (Page.selectedSubtopicId (App.page a0) = Some "s1" ∧
   progression (App.page a0) = InProgress 0 ∧
   length (Page.questionStack (App.page a0)) = 2 ∧
   Page.pdfPageNumber (App.page a0) = None) ∧
  (progression (App.page a1) = InProgress 1 ∧
   Page.explanationText (App.page a1) = "Trees are hierarchical.") ∧
  (progression (App.page a2) = Complete ∧
   Page.explanationText (App.page a2) = allAnswered ∧
   Page.pdfPageNumber (App.page a2) = None) ∧
  (progression (App.page a3) = Complete ∧
   Page.pdfPageNumber (App.page a3) = Some 3%Z).
Proof. vm_compute. by split_and!. Qed.

(** * Further properties of the code *)

(** ** The dataset accessor *)

(** X1. [findTopicById] returns the first topic of the dataset with the given
    id, and nothing exactly when no topic has that id; the id of a topic of
    the dataset is always found, under a topic with the same id. *)
Theorem findTopicById_first (data : DashboardData.t) (topicId : string) :
  match findTopicById data topicId with
  | Some topic => first_topic (topicsOf data) topicId topic
  | None => ∀ t, t ∈ topicsOf data → Topic.id t ≠ topicId
  end ∧
  (∀ topic, topic ∈ topicsOf data →
            ∃ t, findTopicById data (Topic.id topic) = Some t ∧
                 Topic.id t = Topic.id topic).
Proof.
  unfold findTopicById. fold (topicsOf data). split.
  - destruct (array_find _ (topicsOf data)) as [topic|] eqn:Hfind.
    + apply array_find_Some in Hfind as (before & after & Hl & Hid & Hbefore).
      by exists before, after.
    + by rewrite array_find_None in Hfind.
  - intros topic Hin.
    destruct (array_find (λ t, Topic.id t = Topic.id topic) (topicsOf data))
      as [t|] eqn:Hfind.
    + exists t. split; [done|]. by apply array_find_elem_of in Hfind as [_ ?].
    + rewrite array_find_None in Hfind. by destruct (Hfind topic Hin).
Qed.

(** X2. [getTopicExplanation] returns a text exactly when the first
    explanation entry with the topic id has that text and the text is not
    empty: it never returns the empty string and never looks past the first
    matching entry. *)
Theorem getTopicExplanation_text
    (data : DashboardData.t) (topicId text : string) :
  getTopicExplanation data topicId = Some text ↔
  text ≠ "" ∧
  ∃ e, first_explanation data topicId e ∧ TopicExplanation.explanation e = text.
Proof.
  unfold getTopicExplanation, first_explanation. fold (explanationsOf data).
  destruct (array_find (λ exp, TopicExplanation.topic_id exp = topicId)
              (explanationsOf data)) as [e|] eqn:Hfind; simpl.
  - apply array_find_Some in Hfind as Hsplit.
    destruct Hsplit as (before & after & Hl & Hid & Hbefore).
    assert (∀ e', (∃ before' after',
                     explanationsOf data = before' ++ e' :: after' ∧
                     TopicExplanation.topic_id e' = topicId ∧
                     (∀ x, x ∈ before' → TopicExplanation.topic_id x ≠ topicId)) →
                  e' = e) as Hsame.
    { intros e' (before' & after' & Hl' & Hid' & Hbefore').
      assert (array_find (λ exp, TopicExplanation.topic_id exp = topicId)
                (explanationsOf data) = Some e') as Hfind'.
      { apply array_find_Some. by exists before', after'. }
      congruence. }
    unfold truthy. case_bool_decide as Hne.
    + split.
      * intros [= <-]. split; [done|]. exists e. split; [|done]. by exists before, after.
      * intros (_ & e' & Hfirst & <-). by rewrite (Hsame e' Hfirst).
    + split; [done|]. intros (Htext & e' & Hfirst & <-).
      rewrite (Hsame e' Hfirst) in Htext.
      by destruct (decide (TopicExplanation.explanation e = "")).
  - split; [done|].
    intros (_ & e & (before & after & Hl & Hid & _) & _).
    rewrite array_find_None in Hfind. destruct (Hfind e); [|done].
    rewrite Hl. apply elem_of_app. right. left.
Qed.

(** X3. [convertQuestionToQuizFormat] keeps the id and the text of the
    question and converts the choices one by one, in order: the answer at
    each position carries the id, text, correctness flag and explanation of
    the choice at that position, and the first answer flagged correct is the
    first choice flagged correct. *)
Theorem convert_keeps_choices (question : Question.t) :
  let item := convertQuestionToQuizFormat question in
  QuestionStackItem.questionId item = Question.question_id question ∧
  QuestionStackItem.question item = Question.question_text question ∧
  length (QuestionStackItem.answers item) = length (Question.choices question) ∧
  (∀ i,
     (λ a, (Answer.id a, Answer.text a, Answer.isCorrect a, Answer.explanation a))
       <$> QuestionStackItem.answers item !! i
     = (λ c, (Choice.choice_id c, Choice.text c, Choice.is_correct c, Choice.explanation c))
       <$> Question.choices question !! i) ∧
  Answer.id <$> array_find (λ a, Answer.isCorrect a = true) (QuestionStackItem.answers item)
  = Choice.choice_id
      <$> array_find (λ c, Choice.is_correct c = true) (Question.choices question).
Proof.
  simpl. split_and!; [done..| | |].
  - by rewrite length_fmap.
  - intros i. rewrite list_lookup_fmap. by destruct (Question.choices question !! i).
  - induction (Question.choices question) as [|c cs IH]; [done|].
    rewrite fmap_cons, !array_find_cons. simpl.
    destruct (decide (Choice.is_correct c = true)); [done|]. apply IH.
Qed.

(** ** The question progression *)

Lemma reconcile_unchanged a p :
  mounted_ok a → render p = render (App.page a) →
  reconcile p (App.quiz a) = App.quiz a.
Proof.
  intros Hm Hr. destruct (App.quiz a) as [m|] eqn:Hq.
  - destruct (mounted_key a m Hm Hq) as (item & _ & Hactive & _).
    apply (reconcile_same _ _ (QuestionStackItem.answers item)). by rewrite Hr.
  - unfold mounted_ok in Hm. rewrite Hq in Hm. unfold reconcile. rewrite Hr.
    destruct (render (App.page a)); [by destruct Hm|done..].
Qed.

Lemma mounted_index a m :
  mounted_ok a → App.quiz a = Some m →
  Page.currentQuestionIndex (App.page a) < length (Page.questionStack (App.page a)).
Proof.
  intros Hm Hq. destruct (mounted_key a m Hm Hq) as (item & Hlook & _).
  by apply lookup_lt_Some in Hlook.
Qed.

Lemma CompleteInv_questionStackEffect p :
  CompleteInv p → CompleteInv (questionStackEffect p).
Proof.
  intros Hc. unfold questionStackEffect.
  destruct (Page.dashboardData p); [|done].
  destruct (Page.selectedSubtopicId p) as [sid|]; [|done].
  destruct (truthy sid); [|done]. by case_bool_decide.
Qed.

Lemma CompleteInv_commit p q b :
  CompleteInv p → CompleteInv (App.page (commit p q b)).
Proof.
  intros Hc. unfold commit. destruct b; [|done]. by apply CompleteInv_questionStackEffect.
Qed.

Lemma CompleteInv_step a e :
  Inv a → CompleteInv (App.page a) → CompleteInv (App.page (step a e)).
Proof.
  intros [Hm Hp] Hc. destruct e as [[d|]|subtopicId pageReference|n|]; [|done|..];
    unfold step.
  - apply CompleteInv_commit. unfold onDataLoaded.
    destruct (DashboardData.topics _) as [|topic0 ?]; [done|].
    by destruct (Topic.subtopics topic0).
  - apply CompleteInv_commit. unfold handleSubtopicClick.
    by destruct (positive_number pageReference).
  - destruct (App.quiz a) as [m|]; [|done].
    destruct (render (App.page a)) as [k question answers| |]; [|done..].
    destruct (answers !! n) as [answer|]; [|done].
    destruct (handleAnswerClick _ _ _ _ _) as [q' [explanation|]];
      by apply CompleteInv_commit.
  - destruct (App.quiz a) as [m|] eqn:Hq; [|done].
    destruct (handleNext _); [|done]. apply CompleteInv_commit.
    pose proof (mounted_index a m Hm Hq) as Hlt.
    unfold handleNextQuestion. case_bool_decide as Hnext.
    + assert (Page.questionsComplete (App.page a) = false) as Hfalse.
      { destruct (Page.questionsComplete (App.page a)) eqn:Hdone; [|done].
        specialize (Hc Hdone). lia. }
      destruct (Page.dashboardData (App.page a)); [|by intros ?; simpl in *; congruence].
      destruct (Page.selectedSubtopicId (App.page a)) as [sid|];
        [|by intros ?; simpl in *; congruence].
      destruct (truthy sid); intros ?; simpl in *; congruence.
    + intros _. simpl. lia.
Qed.

(** X4. In every state the dashboard can reach from its initial state, by
    any sequence of events: the mounted quiz is the one the page renders; a
    non-empty question stack comes with a loaded dataset and a selection; the
    current index is inside a non-empty stack; and a completed stack is at
    its last question. *)
Theorem reachable_invariant (events : list event) :
  Inv (run App.initial events) ∧ CompleteInv (App.page (run App.initial events)).
Proof.
  assert (∀ a, Inv a ∧ CompleteInv (App.page a) →
               Inv (run a events) ∧ CompleteInv (App.page (run a events))) as Hrun.
  { induction events as [|e events IH]; intros a [Hinv Hc]; [done|].
    apply IH. split; [by apply Inv_step|by apply CompleteInv_step]. }
  apply Hrun. split; [apply Inv_initial|done].
Qed.

Lemma quizFrame_refl a : quizFrame a a.
Proof. by split_and!. Qed.

Lemma quizFrame_answer a n : quizFrame a (step a (AnswerClick n)).
Proof.
  unfold step. destruct (App.quiz a) as [m|]; [|apply quizFrame_refl].
  destruct (render (App.page a)) as [k question answers| |]; [|apply quizFrame_refl..].
  destruct (answers !! n) as [answer|]; [|apply quizFrame_refl].
  destruct (handleAnswerClick _ _ _ _ _) as [q' [explanation|]]; by split_and!.
Qed.

Lemma quizFrame_next a : quizFrame a (step a NextClick).
Proof.
  unfold step. destruct (App.quiz a) as [m|]; [|apply quizFrame_refl].
  destruct (handleNext _); [|apply quizFrame_refl].
  unfold commit, handleNextQuestion. cbn [App.page]. case_bool_decide; [|by split_and!].
  destruct (Page.dashboardData (App.page a)) eqn:Hd;
    [|split_and!; simpl; try done; lia].
  destruct (Page.selectedSubtopicId (App.page a)) as [sid|] eqn:Hsel;
    [|split_and!; simpl; try done; lia].
  destruct (truthy sid); split_and!; simpl; try done; lia.
Qed.

(** X5. Picking an answer and pressing Next never change the dataset, the
    selected subtopic, the PDF page or the question stack; the question index
    never goes back, and a completed stack stays completed. *)
Theorem quiz_controls_frame (a : App.t) (n : nat) :
  quizFrame a (step a (AnswerClick n)) ∧ quizFrame a (step a NextClick).
Proof. split; [apply quizFrame_answer|apply quizFrame_next]. Qed.

Lemma progression_Complete p :
  progression p = Complete ↔
  Page.questionStack p ≠ [] ∧ Page.questionsComplete p = true.
Proof.
  unfold progression. destruct (Page.questionStack p) as [|item items].
  - split; [done|]. by intros [? _].
  - destruct (Page.questionsComplete p); [done|]. split; [done|]. by intros [_ ?].
Qed.

(** X6. The completed state is left by neither control of the quiz: from a
    state whose progression is [Complete], picking an answer or pressing
    Next gives a state whose progression is [Complete]. *)
Theorem complete_is_absorbing (a : App.t) (n : nat) :
  progression (App.page a) = Complete →
  progression (App.page (step a (AnswerClick n))) = Complete ∧
  progression (App.page (step a NextClick)) = Complete.
Proof.
  intros [Hstack Hdone]%progression_Complete.
  destruct (quizFrame_answer a n) as (_ & _ & _ & Hs1 & _ & Hd1).
  destruct (quizFrame_next a) as (_ & _ & _ & Hs2 & _ & Hd2).
  split; apply progression_Complete; split; [by rewrite Hs1|auto|by rewrite Hs2|auto].
Qed.

Lemma step_next_idle a :
  (∀ m, App.quiz a = Some m → handleNext (Mounted.state m) = false) →
  step a NextClick = a.
Proof.
  intros Hidle. unfold step. destruct (App.quiz a) as [m|]; [|done].
  by rewrite (Hidle m).
Qed.

Lemma step_next_last a m :
  mounted_ok a → App.quiz a = Some m →
  handleNext (Mounted.state m) = true →
  Page.currentQuestionIndex (App.page a) + 1 = length (Page.questionStack (App.page a)) →
  step a NextClick =
    App.mk (setExplanationText allAnswered (setQuestionsComplete true (App.page a)))
      (Some m).
Proof.
  intros Hm Hq Hnext Hlast. unfold step. rewrite Hq, Hnext. unfold commit.
  rewrite (handleNextQuestion_last _ Hlast). f_equal.
  rewrite <-Hq. apply reconcile_unchanged; [done|].
  unfold render. simpl.
  destruct (mounted_key a m Hm Hq) as (item & Hlook & _).
  apply lookup_lt_Some in Hlook as Hlt.
  assert (0 < length (Page.questionStack (App.page a))) by lia.
  by rewrite 2 bool_decide_eq_true_2.
Qed.

(** X7. Completing is idempotent: when the last question of the stack is
    displayed, pressing Next twice gives the same state as pressing it once
    (the index stays at the last question and the completion message stays). *)
Theorem completing_is_idempotent (a : App.t) :
  mounted_ok a →
  Page.currentQuestionIndex (App.page a) + 1 = length (Page.questionStack (App.page a)) →
  step (step a NextClick) NextClick = step a NextClick.
Proof.
  intros Hm Hlast.
  destruct (App.quiz a) as [m|] eqn:Hq;
    [|by rewrite !(step_next_idle a) by (intros ?; congruence)].
  destruct (handleNext (Mounted.state m)) eqn:Hnext;
    [|by rewrite !(step_next_idle a) by (intros ?; congruence)].
  pose proof (step_next_last a m Hm Hq Hnext Hlast) as Ha1.
  assert (mounted_ok (step a NextClick)) as Hm1.
  { unfold step. rewrite Hq, Hnext. apply commit_mounted_ok. }
  rewrite Ha1 in Hm1 |- *.
  etrans; [by apply (step_next_last _ m Hm1)|done].
Qed.

(** X8. Selecting the subtopic that is already selected keeps the question
    stack, the current question, the completion flag, the explanation text
    and the recorded answer: only the PDF page can change. *)
Theorem reselect_keeps_progress
    (a : App.t) (subtopicId : string) (pageReference : option Z) :
  mounted_ok a →
  Page.selectedSubtopicId (App.page a) = Some subtopicId →
  let a' := step a (SubtopicClick subtopicId pageReference) in
  App.quiz a' = App.quiz a ∧
  Page.questionStack (App.page a') = Page.questionStack (App.page a) ∧
  Page.currentQuestionIndex (App.page a') = Page.currentQuestionIndex (App.page a) ∧
  Page.questionsComplete (App.page a') = Page.questionsComplete (App.page a) ∧
  Page.explanationText (App.page a') = Page.explanationText (App.page a) ∧
  progression (App.page a') = progression (App.page a).
Proof.
  intros Hm Hsel a'. subst a'. unfold step.
  rewrite bool_decide_eq_false_2 by (intros Hne; by destruct Hne).
  unfold commit. cbn [App.page App.quiz].
  assert (render (handleSubtopicClick subtopicId pageReference (App.page a))
          = render (App.page a)) as Hr.
  { unfold handleSubtopicClick, render.
    destruct (positive_number pageReference); simpl; by rewrite Hsel. }
  split; [by apply reconcile_unchanged|].
  unfold handleSubtopicClick, progression.
  by destruct (positive_number pageReference).
Qed.

(** X9. In a reachable state with a dataset, selecting a different subtopic
    whose id is not empty recomputes everything from the new selection: the
    stack is the converted question list of the new selection, the
    progression is [InProgress 0] (or [Empty] for an empty list), no answer is
    recorded, and the explanation text is the explanation of the selection
    (the placeholder when it has none; the no-questions message for an empty
    list). *)
Theorem selection_restarts_progression
    (a : App.t) (d : DashboardData.t) (subtopicId : string) (pageReference : option Z) :
  reachable a →
  Page.dashboardData (App.page a) = Some d →
  Page.selectedSubtopicId (App.page a) ≠ Some subtopicId →
  subtopicId ≠ "" →
  let a' := step a (SubtopicClick subtopicId pageReference) in
  Page.selectedSubtopicId (App.page a') = Some subtopicId ∧
  Page.questionStack (App.page a') =
    convertQuestionToQuizFormat <$> getSubtopicQuestions d subtopicId ∧
  progression (App.page a') =
    match getSubtopicQuestions d subtopicId with
    | [] => Empty
    | _ :: _ => InProgress 0
    end ∧
  unanswered a' ∧
  Page.explanationText (App.page a') =
    match getSubtopicQuestions d subtopicId with
    | [] => noQuestions
    | _ :: _ => or_else (getSubtopicExplanation d subtopicId) noExplanation
    end.
Proof.
  intros Hreach Hd Hchange Hne a'.
  destruct (selection_change_recomputes a d subtopicId pageReference
              (reachable_Inv a Hreach) Hd Hchange Hne) as (Hsel & Hstack & Hprog & Hun).
  split_and!; [done..|]. subst a'. unfold step.
  rewrite bool_decide_eq_true_2 by done. unfold commit. cbn [App.page].
  apply questionStackEffect_recomputes; [|by unfold handleSubtopicClick;
    destruct (positive_number pageReference)|done].
  unfold handleSubtopicClick. by destruct (positive_number pageReference).
Qed.

(** X10. In a reachable state that shows question [index] with a recorded
    answer whose id is not empty, Next moves to question [index + 1], with no
    answer recorded and the explanation of the selection restored, when a
    further question exists, and otherwise completes the stack with the
    completion message; one of the two cases always applies. *)
Theorem advance_moves_or_completes
    (a : App.t) (m : Mounted.t) (index : nat) (d : DashboardData.t) (subtopicId : string) :
  reachable a →
  progression (App.page a) = InProgress index →
  App.quiz a = Some m →
  truthy_opt (Quiz.selectedAnswer (Mounted.state m)) = true →
  Page.dashboardData (App.page a) = Some d →
  Page.selectedSubtopicId (App.page a) = Some subtopicId →
  subtopicId ≠ "" →
  let a' := step a NextClick in
  index < length (Page.questionStack (App.page a)) ∧
  (index + 1 < length (Page.questionStack (App.page a)) →
     progression (App.page a') = InProgress (index + 1) ∧
     unanswered a' ∧
     Page.explanationText (App.page a') =
       or_else (getSubtopicExplanation d subtopicId) noExplanation) ∧
  (index + 1 = length (Page.questionStack (App.page a)) →
     progression (App.page a') = Complete ∧
     Page.explanationText (App.page a') = allAnswered).
Proof.
  intros Hreach Hprog Hq Htruthy Hd Hsel Hne a'.
  destruct (reachable_Inv a Hreach) as [Hm _].
  destruct (advance_answered a m index Hm Hprog Hq Htruthy) as [Hnext Hlast].
  split_and!.
  - apply progression_InProgress in Hprog as (_ & _ & <-). by eapply mounted_index.
  - intros Hlt. destruct (Hnext Hlt) as (? & ? & Htext). split_and!; [done..|].
    by apply Htext.
  - done.
Qed.

(** X11. In a reachable state that displays a question without a recorded
    answer, picking a choice whose id is not empty is final: every later pick
    on that question leaves the whole state as the first pick left it. *)
Theorem pick_is_final
    (a : App.t) (n k : nat) (answer : Answer.t) :
  reachable a →
  unanswered a →
  currentAnswers (App.page a) !! n = Some answer →
  Answer.id answer ≠ "" →
  step (step a (AnswerClick n)) (AnswerClick k) = step a (AnswerClick n).
Proof.
  intros Hreach Hun Hn Hid. destruct (reachable_Inv a Hreach) as [Hm _].
  destruct (App.quiz a) as [m|] eqn:Hq.
  - apply (answer_one_shot a m n k answer); [done..| |done|done].
    unfold unanswered in Hun. rewrite Hq in Hun. by rewrite Hun.
  - unfold mounted_ok in Hm. rewrite Hq in Hm. unfold currentAnswers in Hn.
    destruct (render (App.page a)); [by destruct Hm|done..].
Qed.

(** X12. Selecting an id that no topic of the dataset contains (not empty,
    and not the current selection) empties the derived state: no subtopic is
    found, the question stack is empty, the progression is [Empty], the
    explanation text is the no-questions message, and no quiz is mounted. *)
Theorem selecting_unknown_subtopic
    (a : App.t) (d : DashboardData.t) (subtopicId : string) (pageReference : option Z) :
  Page.dashboardData (App.page a) = Some d →
  Page.selectedSubtopicId (App.page a) ≠ Some subtopicId →
  subtopicId ≠ "" →
  (∀ topic, topic ∈ topicsOf d → ¬ has_subtopic subtopicId topic) →
  let a' := step a (SubtopicClick subtopicId pageReference) in
  findSubtopicById d subtopicId = None ∧
  Page.selectedSubtopicId (App.page a') = Some subtopicId ∧
  Page.questionStack (App.page a') = [] ∧
  progression (App.page a') = Empty ∧
  Page.explanationText (App.page a') = noQuestions ∧
  App.quiz a' = None.
Proof.
  intros Hd Hchange Hne Hunknown a'.
  assert (findSubtopicById d subtopicId = None) as Hfind
    by by apply findSubtopicIn_None.
  assert (getSubtopicQuestions d subtopicId = []) as Hqs
    by (unfold getSubtopicQuestions; by rewrite Hfind).
  split; [done|]. subst a'. unfold step.
  rewrite bool_decide_eq_true_2 by done.
  set (p := handleSubtopicClick subtopicId pageReference (App.page a)).
  assert (Page.dashboardData p = Some d ∧ Page.selectedSubtopicId p = Some subtopicId)
    as [Hpd Hpsel].
  { unfold p, handleSubtopicClick. by destruct (positive_number pageReference). }
  destruct (questionStackEffect_recomputes p d subtopicId Hpd Hpsel Hne)
    as (Hstack & Hidx & Hdone & Htext).
  rewrite Hqs in Hstack, Htext. unfold commit. cbn [App.page App.quiz].
  split_and!.
  - by destruct (questionStackEffect_frame p) as (_ & -> & _).
  - done.
  - unfold progression. by rewrite Hstack.
  - done.
  - destruct (reconcile (questionStackEffect p) _) as [m'|] eqn:Hr; [|done]. exfalso.
    pose proof (reconcile_mounted_ok (questionStackEffect p)
                  (reconcile p (App.quiz a))) as Hm'.
    rewrite Hr in Hm'.
    destruct (mounted_key _ _ Hm' eq_refl) as (item & Hlook & _).
    cbn [App.page] in Hlook. by rewrite Hstack in Hlook.
Qed.

(** X13. The explanation panel never displays an empty text: it displays its
    text when that is not empty and the placeholder otherwise. After the
    selection of a subtopic that is not the one already selected, with a
    non-empty id, on a loaded dataset, the explanation text itself is not
    empty, so the panel displays exactly it. *)
Theorem panel_never_blank
    (a : App.t) (d : DashboardData.t) (subtopicId : string) (pageReference : option Z) :
  (∀ text, Explanation text ≠ "" ∧
           (text ≠ "" → Explanation text = text) ∧
           (text = "" → Explanation text = noExplanation)) ∧
  (Page.dashboardData (App.page a) = Some d →
   Page.selectedSubtopicId (App.page a) ≠ Some subtopicId →
   subtopicId ≠ "" →
   let a' := step a (SubtopicClick subtopicId pageReference) in
   Page.explanationText (App.page a') ≠ "" ∧
   Explanation (Page.explanationText (App.page a')) = Page.explanationText (App.page a')).
Proof.
  assert (∀ text, Explanation text ≠ "" ∧
                  (text ≠ "" → Explanation text = text) ∧
                  (text = "" → Explanation text = noExplanation)) as Hpanel.
  { intros text. unfold Explanation, truthy. case_bool_decide as Hne.
    - split_and!; [done..|]. by intros ->.
    - split_and!; [done| |done]. intros Hne'. by destruct Hne. }
  split; [done|]. intros Hd Hchange Hne a'.
  assert (Page.explanationText (App.page a') ≠ "") as Htext.
  { subst a'. unfold step. rewrite bool_decide_eq_true_2 by done.
    set (p := handleSubtopicClick subtopicId pageReference (App.page a)).
    assert (Page.dashboardData p = Some d ∧ Page.selectedSubtopicId p = Some subtopicId)
      as [Hpd Hpsel].
    { unfold p, handleSubtopicClick. by destruct (positive_number pageReference). }
    destruct (questionStackEffect_recomputes p d subtopicId Hpd Hpsel Hne)
      as (_ & _ & _ & Htext).
    unfold commit. cbn [App.page]. rewrite Htext.
    destruct (getSubtopicQuestions d subtopicId); [done|].
    unfold or_else, truthy. destruct (getSubtopicExplanation d subtopicId) as [s|]; [|done].
    by case_bool_decide. }
  split; [done|]. by apply Hpanel.
Qed.

(** X14. After the first pick on a question, the recorded correct answer, if
    any, is the id of an answer of that question flagged correct: the picked
    one when it is correct, otherwise the first one flagged correct (none
    when no answer is flagged correct); and one is recorded whenever the
    question has an answer flagged correct. *)
Theorem recorded_correct_answer_is_correct
    (a : App.t) (m : Mounted.t) (n : nat) (answer : Answer.t) :
  mounted_ok a →
  App.quiz a = Some m →
  Mounted.state m = Quiz.initial →
  currentAnswers (App.page a) !! n = Some answer →
  ∃ st,
    quizState (step a (AnswerClick n)) = Some st ∧
    (∀ c, Quiz.correctAnswerId st = Some c →
          ∃ x, x ∈ currentAnswers (App.page a) ∧ Answer.id x = c ∧
               Answer.isCorrect x = true) ∧
    (Answer.isCorrect answer = true →
     Quiz.correctAnswerId st = Some (Answer.id answer)) ∧
    ((∃ x, x ∈ currentAnswers (App.page a) ∧ Answer.isCorrect x = true) →
     is_Some (Quiz.correctAnswerId st)) ∧
    (Answer.isCorrect answer = false →
     ∀ before x after,
       currentAnswers (App.page a) = before ++ x :: after →
       Answer.isCorrect x = true →
       (∀ y, y ∈ before → Answer.isCorrect y = false) →
       Quiz.correctAnswerId st = Some (Answer.id x)) ∧
    (Answer.isCorrect answer = false →
     (∀ y, y ∈ currentAnswers (App.page a) → Answer.isCorrect y = false) →
     Quiz.correctAnswerId st = None).
Proof.
  intros Hm Hq Hinit Hn.
  rewrite (first_answer a m n answer Hm Hq) by (by rewrite ?Hinit).
  eexists. split; [reflexivity|]. simpl. rewrite Hinit. simpl.
  destruct (Answer.isCorrect answer) eqn:Hcorrect.
  - split_and!; [|done|by eexists|done|done].
    intros c [= <-]. exists answer. split_and!; [|done..].
    by eapply list_elem_of_lookup_2.
  - destruct (array_find (λ x, Answer.isCorrect x = true) (currentAnswers (App.page a)))
      as [correct|] eqn:Hfind.
    + apply array_find_elem_of in Hfind as Hcorrect'. destruct Hcorrect' as [Hin Hflag].
      split_and!; [|done|by eexists| |].
      * intros c [= <-]. by exists correct.
      * intros _ before x after Hsplit Hx Hbefore.
        assert (array_find (λ x, Answer.isCorrect x = true)
                  (currentAnswers (App.page a)) = Some x) as Hfind'.
        { apply array_find_Some. exists before, after. split_and!; [done..|].
          intros y Hy. by rewrite (Hbefore y Hy). }
        congruence.
      * intros _ Hnone. by rewrite (Hnone correct Hin) in Hflag.
    + rewrite array_find_None in Hfind. split_and!; [done|done| | |done].
      * intros (x & Hx & Hflag). by destruct (Hfind x Hx).
      * intros _ before x after Hsplit Hx _. destruct (Hfind x); [|done].
        rewrite Hsplit. apply elem_of_app. right. left.
Qed.

(** ** The sidebar *)

(** X15. Toggling a topic flips exactly that topic: it is open afterwards
    exactly when it was closed before, every other topic keeps its state, and
    toggling twice restores the set of open topics. *)
Theorem toggleDropdown_flips (topicId : string) (openDropdowns : gset string) :
  toggleDropdown topicId (toggleDropdown topicId openDropdowns) = openDropdowns ∧
  (topicId ∈ toggleDropdown topicId openDropdowns ↔ topicId ∉ openDropdowns) ∧
  (∀ other, other ≠ topicId →
            other ∈ toggleDropdown topicId openDropdowns ↔ other ∈ openDropdowns).
Proof.
  assert (∀ x, x ∈ toggleDropdown topicId openDropdowns ↔
               (x = topicId ∧ topicId ∉ openDropdowns) ∨
               (x ≠ topicId ∧ x ∈ openDropdowns)) as Hmem.
  { intros x. unfold toggleDropdown.
    destruct (decide (topicId ∈ openDropdowns)) as [Hin|Hout].
    - rewrite elem_of_difference, elem_of_singleton. intuition congruence.
    - rewrite elem_of_union, elem_of_singleton.
      destruct (decide (x = topicId)) as [->|]; intuition congruence. }
  split_and!.
  - apply set_eq. intros x. unfold toggleDropdown at 1.
    destruct (decide (topicId ∈ toggleDropdown topicId openDropdowns)) as [Hin|Hout].
    + rewrite elem_of_difference, elem_of_singleton, Hmem.
      apply Hmem in Hin. intuition congruence.
    + rewrite elem_of_union, elem_of_singleton, Hmem.
      rewrite Hmem in Hout.
      destruct (decide (x = topicId)) as [->|]; [|intuition congruence].
      destruct (decide (topicId ∈ openDropdowns)); intuition congruence.
  - rewrite Hmem. intuition congruence.
  - intros other Hne. rewrite Hmem. intuition congruence.
Qed.

Lemma findSubtopicById_found d subtopicId :
  (∃ topic sub, topic ∈ topicsOf d ∧ sub ∈ Topic.subtopics topic ∧
                Subtopic.id sub = subtopicId) →
  ∃ t s, findSubtopicById d subtopicId = Some (t, s) ∧ Subtopic.id s = subtopicId.
Proof.
  intros (topic & sub & Hin & Hsub & Hid). unfold findSubtopicById. fold (topicsOf d).
  destruct (findSubtopicIn (topicsOf d) subtopicId) as [[t s]|] eqn:Hfind.
  - exists t, s. split; [done|].
    by apply findSubtopicIn_Some in Hfind as (? & ? & ? & ? & _ & _ & _ & ? & _).
  - rewrite findSubtopicIn_None in Hfind. destruct (Hfind topic Hin). by exists sub.
Qed.

(** X16. The subtopic buttons of the sidebar are exactly the subtopics of
    the loaded dataset whose topic is open, with their id, title and page
    reference (none before the dataset has loaded); the click of a button
    therefore always carries a page reference and an id that
    [findSubtopicById] resolves to a subtopic with that id. *)
Theorem sidebar_offers_dataset_subtopics
    (p : Page.t) (openDropdowns : gset string) (s : SidebarSubtopic.t) :
  (s ∈ renderedSubtopics (topicsWithPageRefs p) openDropdowns ↔
   ∃ d topic sub,
     Page.dashboardData p = Some d ∧
     topic ∈ topicsOf d ∧ Topic.id topic ∈ openDropdowns ∧
     sub ∈ Topic.subtopics topic ∧
     s = SidebarSubtopic.mk (Subtopic.id sub) (Subtopic.title sub)
           (Some (Subtopic.page_reference sub))) ∧
  (s ∈ renderedSubtopics (topicsWithPageRefs p) openDropdowns →
   ∃ d topic sub pageReference,
     Page.dashboardData p = Some d ∧
     findSubtopicById d (SidebarSubtopic.id s) = Some (topic, sub) ∧
     Subtopic.id sub = SidebarSubtopic.id s ∧
     handleSubtopicSelect s = SubtopicClick (SidebarSubtopic.id s) (Some pageReference)).
Proof.
  assert (s ∈ renderedSubtopics (topicsWithPageRefs p) openDropdowns ↔
          ∃ d topic sub,
            Page.dashboardData p = Some d ∧
            topic ∈ topicsOf d ∧ Topic.id topic ∈ openDropdowns ∧
            sub ∈ Topic.subtopics topic ∧
            s = SidebarSubtopic.mk (Subtopic.id sub) (Subtopic.title sub)
                  (Some (Subtopic.page_reference sub))) as Hiff.
  { unfold renderedSubtopics, topicsWithPageRefs. rewrite list_elem_of_bind.
    destruct (Page.dashboardData p) as [d|]; [fold (topicsOf d)|].
    - split.
      + intros (st & Hs & (topic & -> & Hin)%list_elem_of_fmap). simpl in Hs.
        destruct (decide (Topic.id topic ∈ openDropdowns)); [|by apply elem_of_nil in Hs].
        apply list_elem_of_fmap in Hs as (sub & -> & Hsub). by exists d, topic, sub.
      + intros (d' & topic & sub & [= <-] & Hin & Hopen & Hsub & ->).
        eexists. split; [|apply list_elem_of_fmap; by exists topic]. simpl.
        rewrite decide_True by done. apply list_elem_of_fmap. by exists sub.
    - split.
      + by intros (st & _ & ?%elem_of_nil).
      + by intros (d' & ? & ? & ? & _). }
  split; [done|]. intros (d & topic & sub & Hd & Hin & _ & Hsub & ->)%Hiff. simpl.
  pose proof (findSubtopicById_found d (Subtopic.id sub)) as Hfound.
  destruct Hfound as (t & s' & Hfind & Hid); [by exists topic, sub|].
  by exists d, t, s', (Subtopic.page_reference sub).
Qed.

(** ** The PDF viewer *)

Lemma beforeHash_cons c s :
  beforeHash (String c s) =
  if decide (c = "#"%char) then EmptyString else String c (beforeHash s).
Proof. reflexivity. Qed.

Lemma beforeHash_app_hash s t : beforeHash (beforeHash s +:+ "#" +:+ t) = beforeHash s.
Proof.
  induction s as [|c s IH]; [reflexivity|].
  rewrite beforeHash_cons. destruct (decide (c = "#"%char)) as [->|Hc]; [reflexivity|].
  change (beforeHash (String c (beforeHash s +:+ "#" +:+ t)) = String c (beforeHash s)).
  rewrite beforeHash_cons, decide_False by done. by rewrite IH.
Qed.

Lemma beforeHash_idem s : beforeHash (beforeHash s) = beforeHash s.
Proof.
  induction s as [|c s IH]; [reflexivity|].
  rewrite beforeHash_cons. destruct (decide (c = "#"%char)) as [->|Hc]; [reflexivity|].
  rewrite beforeHash_cons, decide_False by done. by rewrite IH.
Qed.

Lemma beforeHash_withPage url pageNumber :
  beforeHash (withPage (beforeHash url) pageNumber) = beforeHash url.
Proof.
  unfold withPage. destruct pageNumber as [n|]; [|apply beforeHash_idem].
  destruct (positive_number (Some n)); [|apply beforeHash_idem].
  apply (beforeHash_app_hash url ("page=" +:+ pretty n)).
Qed.

(** X17. The page fragment is replaced, not accumulated: the part before
    the first [#] of a URL that the viewer built is the part before the first
    [#] of the file URL it was built from, so navigating from a URL the
    viewer built gives the same result as navigating from the original URL;
    and that part never changes when it is split again. *)
Theorem page_fragment_is_replaced (url : string) (first next : option Z) :
  beforeHash (beforeHash url) = beforeHash url ∧
  beforeHash (withPage (beforeHash url) first) = beforeHash url ∧
  withPage (beforeHash (withPage (beforeHash url) first)) next
  = withPage (beforeHash url) next ∧
  (∀ fragment, beforeHash (beforeHash url +:+ "#" +:+ fragment) = beforeHash url).
Proof.
  split_and!.
  - apply beforeHash_idem.
  - apply beforeHash_withPage.
  - by rewrite beforeHash_withPage.
  - intros fragment. apply beforeHash_app_hash.
Qed.

Lemma loadPDF_iframe create file pageNumber v :
  file_truthy file = true →
  is_Some (Viewer.iframeSrc (loadPDF create file pageNumber v)).
Proof.
  intros Htruthy. unfold loadPDF. rewrite Htruthy.
  destruct file as [[f|url]|]; [by eexists..|done].
Qed.

Lemma navigate_shows create file pageNumber v :
  is_Some (Viewer.iframeSrc v) →
  (∀ f, file = Some (FileObject f) → is_Some (Viewer.blobUrlRef v)) →
  viewerShows (ViewerProps.mk file pageNumber) (navigate create file pageNumber v).
Proof.
  intros [src Hsrc] Hblob. unfold viewerShows, navigate. simpl.
  destruct file as [[f|url]|]; [| |done].
  - simpl. rewrite Hsrc. destruct (Hblob f eq_refl) as [blob Hb]. rewrite Hb. simpl.
    destruct (truthy blob); by eexists.
  - simpl. intros ->. by rewrite Hsrc.
Qed.

Lemma loadPDF_blob create f pageNumber v :
  is_Some (Viewer.blobUrlRef (loadPDF create (Some (FileObject f)) pageNumber v)).
Proof. by eexists. Qed.

Lemma viewerShows_mount create props : viewerShows props (mountViewer create props).
Proof.
  destruct props as [file pageNumber]. unfold mountViewer. simpl.
  destruct (file_truthy file) eqn:Htruthy.
  - apply navigate_shows; [by apply loadPDF_iframe|].
    intros f ->. apply loadPDF_blob.
  - unfold navigate, loadPDF. rewrite Htruthy. unfold viewerShows. simpl.
    destruct file as [[f|url]|]; [done| |done]. simpl in Htruthy. congruence.
Qed.

Lemma viewerShows_iframe props v :
  viewerShows props v → file_truthy (ViewerProps.file props) = true →
  is_Some (Viewer.iframeSrc v) ∧
  (∀ f, ViewerProps.file props = Some (FileObject f) → is_Some (Viewer.blobUrlRef v)).
Proof.
  unfold viewerShows. destruct (ViewerProps.file props) as [[f|url]|]; simpl.
  - intros (blob & Hb & Hsrc) _. split; [by eexists|]. intros _ _. by eexists.
  - intros Hshows Htruthy. split; [|done]. rewrite (Hshows Htruthy). by eexists.
  - done.
Qed.

Lemma viewerShows_update create old new v :
  viewerShows old v → viewerShows new (updateViewer create old new v).
Proof.
  intros Hold. unfold updateViewer.
  destruct (decide (old = new)) as [->|Hne].
  { by rewrite decide_True. }
  destruct new as [file pageNumber]. simpl.
  destruct (file_truthy file) eqn:Htruthy.
  - destruct (decide (ViewerProps.file old = file)) as [Hfile|Hfile].
    + rewrite <-Hfile in Htruthy.
      destruct (viewerShows_iframe old v Hold Htruthy) as [Hsrc Hblob].
      apply navigate_shows; [done|]. intros f Hf. apply (Hblob f). congruence.
    + apply navigate_shows; [by apply loadPDF_iframe|].
      intros f ->. apply loadPDF_blob.
  - assert (∀ w, navigate create file pageNumber w = w) as Hnav.
    { intros w. unfold navigate. by rewrite Htruthy. }
    rewrite Hnav. unfold viewerShows. simpl.
    destruct file as [[f|url]|]; [done| |done]. simpl in Htruthy. congruence.
Qed.

(** X18. Whatever sequence of renders the viewer goes through after it
    mounted, its iframe shows the current file at the current page: for a
    non-empty URL string, the part of the URL before its first [#], followed
    by [#page=N] exactly when the page number is positive; for a [File]
    object, the object URL the viewer holds, with the same fragment rule. *)
Theorem viewer_shows_current_page
    (createObjectURL : nat → string) (props : ViewerProps.t)
    (renders : list ViewerProps.t) :
  viewerShows (viewerLife createObjectURL props renders).1
    (viewerLife createObjectURL props renders).2.
Proof.
  unfold viewerLife.
  generalize (viewerShows_mount createObjectURL props).
  generalize (mountViewer createObjectURL props) as v.
  revert props. induction renders as [|next rest IH]; intros props v Hshows; [done|].
  simpl. apply IH. by apply viewerShows_update.
Qed.

Section object_urls.
Variable createObjectURL : nat → string.
Hypothesis url_not_empty : ∀ n, createObjectURL n ≠ "".
Hypothesis url_fresh : Inj (=) (=) createObjectURL.

Lemma log_fresh v :
  viewerLog createObjectURL v →
  createObjectURL (length (Viewer.created v)) ∉ Viewer.created v.
Proof.
  intros [Hlog _] Hin. destruct (Hlog _ Hin) as (i & Hlt & Heq).
  apply url_fresh in Heq. lia.
Qed.

Lemma log_truthy v url :
  viewerLog createObjectURL v → url ∈ Viewer.created v → truthy url = true.
Proof.
  intros [Hlog _] Hin. destruct (Hlog _ Hin) as (i & _ & ->).
  unfold truthy. by rewrite bool_decide_eq_true_2.
Qed.

Lemma log_extend v blob src revoked :
  viewerLog createObjectURL v →
  (∀ url, url ∈ revoked → url ∈ Viewer.created v) →
  viewerLog createObjectURL
    (Viewer.mk blob src
       (createObjectURL (length (Viewer.created v)) :: Viewer.created v) revoked).
Proof.
  intros [Hlog Hrev] Hrevoked. split; simpl.
  - intros url [->|Hin]%elem_of_cons.
    + exists (length (Viewer.created v)). split; [lia|done].
    + destruct (Hlog url Hin) as (i & Hlt & ->). exists i. split; [lia|done].
  - intros url Hin. right. by apply Hrevoked.
Qed.

Lemma noLeak_loadPDF file pageNumber v :
  noLeak v → viewerLog createObjectURL v →
  noLeak (loadPDF createObjectURL file pageNumber v) ∧
  viewerLog createObjectURL (loadPDF createObjectURL file pageNumber v).
Proof.
  intros [Hall Hcur] Hlog. unfold loadPDF.
  destruct (file_truthy file); [|done]. destruct file as [[f|url]|]; [| |done].
  - pose proof (log_fresh v Hlog) as Hfresh.
    destruct (Viewer.blobUrlRef v) as [old|] eqn:Hold.
    + destruct (Hcur old eq_refl) as [Hin Hnot].
      rewrite (log_truthy v old Hlog Hin). split.
      * split; simpl.
        -- intros url [->|Hc]%elem_of_cons; [by right|]. left.
           destruct (Hall url Hc) as [?|[= ->]]; [by right|left].
        -- intros url [= <-]. split; [left|].
           intros [Heq|Hr]%elem_of_cons; [apply Hfresh; by rewrite Heq|].
           destruct Hlog as [_ Hrev]. auto.
      * apply log_extend; [done|]. destruct Hlog as [_ Hrev].
        intros url [->|Hr]%elem_of_cons; auto.
    + split.
      * split; simpl.
        -- intros url [->|Hc]%elem_of_cons; [by right|]. left.
           by destruct (Hall url Hc) as [?|?].
        -- intros url [= <-]. split; [left|]. destruct Hlog as [_ Hrev]. auto.
      * apply log_extend; [done|]. by destruct Hlog.
  - split; [by split|]. by destruct Hlog.
Qed.

Lemma noLeak_navigate file pageNumber v :
  noLeak v → viewerLog createObjectURL v →
  noLeak (navigate createObjectURL file pageNumber v) ∧
  viewerLog createObjectURL (navigate createObjectURL file pageNumber v).
Proof.
  intros [Hall Hcur] Hlog. unfold navigate.
  destruct (file_truthy file); [|done].
  destruct (Viewer.iframeSrc v); [|done]. destruct file as [[f|url]|]; [| |done].
  - destruct (Viewer.blobUrlRef v) as [old|] eqn:Hold; simpl.
    + destruct (Hcur old eq_refl) as [Hin Hnot].
      rewrite (log_truthy v old Hlog Hin). split; [split; simpl|by destruct Hlog].
      * exact Hall.
      * exact Hcur.
    + pose proof (log_fresh v Hlog) as Hfresh. split.
      * split; simpl.
        -- intros url [->|Hc]%elem_of_cons; [by right|]. left.
           by destruct (Hall url Hc) as [?|?].
        -- intros url [= <-]. split; [left|]. destruct Hlog as [_ Hrev]. auto.
      * apply log_extend; [done|]. by destruct Hlog.
  - split; [by split|]. by destruct Hlog.
Qed.

Lemma noLeak_update old new v :
  noLeak v ∧ viewerLog createObjectURL v →
  noLeak (updateViewer createObjectURL old new v) ∧
  viewerLog createObjectURL (updateViewer createObjectURL old new v).
Proof.
  intros [Hleak Hlog]. unfold updateViewer.
  assert (noLeak (if decide (ViewerProps.file old = ViewerProps.file new) then v
                  else loadPDF createObjectURL (ViewerProps.file new)
                         (ViewerProps.pageNumber new) v) ∧
          viewerLog createObjectURL
            (if decide (ViewerProps.file old = ViewerProps.file new) then v
             else loadPDF createObjectURL (ViewerProps.file new)
                    (ViewerProps.pageNumber new) v)) as [Hleak1 Hlog1].
  { destruct (decide (ViewerProps.file old = ViewerProps.file new)); [done|].
    by apply noLeak_loadPDF. }
  destruct (decide (old = new)); [done|]. by apply noLeak_navigate.
Qed.

Lemma noLeak_run props v renders :
  noLeak v ∧ viewerLog createObjectURL v →
  noLeak (viewerRun createObjectURL props v renders).2 ∧
  viewerLog createObjectURL (viewerRun createObjectURL props v renders).2.
Proof.
  revert props v. induction renders as [|next rest IH]; intros props v Hv; [done|].
  simpl. apply IH. by apply noLeak_update.
Qed.

(** X19. Object URLs do not leak: when the object URLs of the browser are
    non-empty and pairwise distinct, then after mounting and any sequence of
    renders every object URL the viewer created has been revoked, except the
    one it currently holds, which has not been revoked; and after the
    unmount cleanup every object URL it created has been revoked. *)
Theorem object_urls_do_not_leak
    (props : ViewerProps.t) (renders : list ViewerProps.t) :
  let v := (viewerLife createObjectURL props renders).2 in
  noLeak v ∧
  (∀ url, url ∈ Viewer.created (revokeOnUnmount v) →
          url ∈ Viewer.revoked (revokeOnUnmount v)).
Proof.
  intros v.
  assert (noLeak v ∧ viewerLog createObjectURL v) as [Hleak Hlog].
  { apply noLeak_run. unfold mountViewer.
    assert (noLeak Viewer.initial ∧ viewerLog createObjectURL Viewer.initial) as [H0 H1].
    { split; split; simpl; try done; by intros ? ?%elem_of_nil. }
    destruct (noLeak_loadPDF (ViewerProps.file props) (ViewerProps.pageNumber props)
                Viewer.initial H0 H1) as [H2 H3].
    by apply noLeak_navigate. }
  split; [done|]. destruct Hleak as [Hall Hcur]. unfold revokeOnUnmount.
  destruct (Viewer.blobUrlRef v) as [blob|] eqn:Hblob.
  - destruct (Hcur blob eq_refl) as [Hin _].
    rewrite (log_truthy v blob Hlog Hin). simpl. intros url Hc.
    destruct (Hall url Hc) as [?|[= ->]]; [by right|left].
  - intros url Hc. by destruct (Hall url Hc).
Qed.
End object_urls.

(** ** The upload page *)

Lemma handleFileChange_inv create storage0 files h :
  (∀ file, Home.selectedFile h = Some file →
           File.type file = "application/pdf" ∧
           Home.sessionStorage h !! "uploadedPDF"
           = Some (create (Home.urlsCreated h - 1))) ∧
  (Home.selectedFile h = None → Home.sessionStorage h = storage0 ∧ Home.pushed h = []) ∧
  length (Home.pushed h) = Home.urlsCreated h →
  let h' := handleFileChange create files h in
  (∀ file, Home.selectedFile h' = Some file →
           File.type file = "application/pdf" ∧
           Home.sessionStorage h' !! "uploadedPDF"
           = Some (create (Home.urlsCreated h' - 1))) ∧
  (Home.selectedFile h' = None → Home.sessionStorage h' = storage0 ∧ Home.pushed h' = []) ∧
  length (Home.pushed h') = Home.urlsCreated h'.
Proof.
  intros (Hsome & Hnone & Hlen) h'. subst h'. unfold handleFileChange.
  destruct (head files) as [file|]; [|done].
  destruct (decide (File.type file ≠ "application/pdf")) as [Hbad|Hok]; [done|].
  simpl. split_and!.
  - intros f [= <-]. split.
    + by destruct (decide (File.type file = "application/pdf")).
    + rewrite lookup_insert_eq. do 2 f_equal. lia.
  - done.
  - by rewrite Hlen.
Qed.

(** X20. On the upload page only PDF files get through, whatever sequence of
    files is offered to the input: a selected file always has the type
    [application/pdf], and then the session storage holds, under
    [uploadedPDF], the object URL created for the latest accepted file, which
    is what the dashboard reads as its PDF file; as long as no file has been
    accepted the session storage is untouched and nothing is pushed to the
    router; every navigation goes with exactly one created object URL. *)
Theorem upload_hands_over_pdf_only
    (createObjectURL : nat → string) (storage : gmap string string)
    (changes : list (list File.t)) :
  let h := homeRun createObjectURL (homeInitial storage) changes in
  (∀ file, Home.selectedFile h = Some file →
           File.type file = "application/pdf" ∧
           loadPdfFile (Home.sessionStorage h)
           = or_null (Some (createObjectURL (Home.urlsCreated h - 1)))) ∧
  (Home.selectedFile h = None →
   Home.sessionStorage h = storage ∧ Home.pushed h = []) ∧
  length (Home.pushed h) = Home.urlsCreated h.
Proof.
  intros h.
  assert ((∀ file, Home.selectedFile h = Some file →
                   File.type file = "application/pdf" ∧
                   Home.sessionStorage h !! "uploadedPDF"
                   = Some (createObjectURL (Home.urlsCreated h - 1))) ∧
          (Home.selectedFile h = None →
           Home.sessionStorage h = storage ∧ Home.pushed h = []) ∧
          length (Home.pushed h) = Home.urlsCreated h) as (Hsome & Hnone & Hlen).
  { subst h. unfold homeRun.
    assert ((∀ file, Home.selectedFile (homeInitial storage) = Some file →
                     File.type file = "application/pdf" ∧
                     Home.sessionStorage (homeInitial storage) !! "uploadedPDF"
                     = Some (createObjectURL (Home.urlsCreated (homeInitial storage) - 1))) ∧
            (Home.selectedFile (homeInitial storage) = None →
             Home.sessionStorage (homeInitial storage) = storage ∧
             Home.pushed (homeInitial storage) = []) ∧
            length (Home.pushed (homeInitial storage))
            = Home.urlsCreated (homeInitial storage)) as Hinit by done.
    revert Hinit. generalize (homeInitial storage) as h0.
    induction changes as [|files changes IH]; intros h0 Hinv; [done|].
    simpl. apply IH. by apply handleFileChange_inv. }
  split_and!; [|done..]. intros file Hfile.
  destruct (Hsome file Hfile) as [Htype Hlook]. split; [done|].
  unfold loadPdfFile. by rewrite Hlook.
Qed.

(** ** Selection, page and the walk through the questions *)

Lemma pdfPositive_step a e : pdfPositive (App.page a) → pdfPositive (App.page (step a e)).
Proof.
  intros Hpos.
  destruct e as [[d|]|subtopicId pageReference|n|]; [|done|..].
  - unfold step, pdfPositive. destruct (commit_frame
      (onDataLoaded (Some d) (App.page a)) (App.quiz a) true) as (_ & _ & ->).
    unfold onDataLoaded. destruct (DashboardData.topics _) as [|topic0 ?]; [done|].
    by destruct (Topic.subtopics topic0).
  - unfold step, pdfPositive. destruct (commit_frame
      (handleSubtopicClick subtopicId pageReference (App.page a)) (App.quiz a)
      (bool_decide (Page.selectedSubtopicId (App.page a) ≠ Some subtopicId)))
      as (_ & _ & ->).
    unfold handleSubtopicClick.
    destruct (positive_number pageReference) eqn:Hp; [|done]. simpl.
    destruct pageReference as [z|]; [|done]. simpl in Hp.
    apply andb_true_iff in Hp as [_ Hp]. by apply Z.ltb_lt in Hp.
  - unfold pdfPositive. by destruct (quizFrame_answer a n) as (_ & _ & -> & _).
  - unfold pdfPositive. by destruct (quizFrame_next a) as (_ & _ & -> & _).
Qed.

Lemma selection_kept a e :
  is_Some (Page.selectedSubtopicId (App.page a)) →
  is_Some (Page.selectedSubtopicId (App.page (step a e))).
Proof.
  intros Hsel. destruct e as [[d|]|subtopicId pageReference|n|]; [|done|..].
  - unfold step. destruct (commit_frame
      (onDataLoaded (Some d) (App.page a)) (App.quiz a) true) as (_ & -> & _).
    unfold onDataLoaded. destruct (DashboardData.topics _) as [|topic0 ?]; [done|].
    by destruct (Topic.subtopics topic0).
  - unfold step. destruct (commit_frame
      (handleSubtopicClick subtopicId pageReference (App.page a)) (App.quiz a)
      (bool_decide (Page.selectedSubtopicId (App.page a) ≠ Some subtopicId)))
      as (_ & -> & _).
    unfold handleSubtopicClick. by destruct (positive_number pageReference).
  - by destruct (quizFrame_answer a n) as (_ & -> & _).
  - by destruct (quizFrame_next a) as (_ & -> & _).
Qed.

Lemma pdf_kept a e :
  is_Some (Page.pdfPageNumber (App.page a)) →
  is_Some (Page.pdfPageNumber (App.page (step a e))).
Proof.
  intros Hpdf. destruct e as [[d|]|subtopicId pageReference|n|]; [|done|..].
  - unfold step. destruct (commit_frame
      (onDataLoaded (Some d) (App.page a)) (App.quiz a) true) as (_ & _ & ->).
    unfold onDataLoaded. destruct (DashboardData.topics _) as [|topic0 ?]; [done|].
    by destruct (Topic.subtopics topic0).
  - unfold step. destruct (commit_frame
      (handleSubtopicClick subtopicId pageReference (App.page a)) (App.quiz a)
      (bool_decide (Page.selectedSubtopicId (App.page a) ≠ Some subtopicId)))
      as (_ & _ & ->).
    unfold handleSubtopicClick. destruct pageReference as [z|]; [|done].
    by destruct (positive_number (Some z)).
  - by destruct (quizFrame_answer a n) as (_ & _ & -> & _).
  - by destruct (quizFrame_next a) as (_ & _ & -> & _).
Qed.

(** X21. The selection and the PDF page are never cleared and the PDF page
    is never zero or negative: no event turns a present selection or PDF page
    into an absent one, loading the dataset leaves the PDF page as it is, and
    in every state reached from the initial one the PDF page, when set, is a
    positive number. *)
Theorem selection_and_page_persist (a : App.t) (e : event) (events : list event) :
  (is_Some (Page.selectedSubtopicId (App.page a)) →
   is_Some (Page.selectedSubtopicId (App.page (step a e)))) ∧
  (is_Some (Page.pdfPageNumber (App.page a)) →
   is_Some (Page.pdfPageNumber (App.page (step a e)))) ∧
  (∀ data, Page.pdfPageNumber (App.page (step a (DataLoaded data)))
           = Page.pdfPageNumber (App.page a)) ∧
  pdfPositive (App.page (run App.initial events)).
Proof.
  split_and!; [apply selection_kept|apply pdf_kept| |].
  - intros [d|]; [|done]. unfold step.
    destruct (commit_frame (onDataLoaded (Some d) (App.page a)) (App.quiz a) true)
      as (_ & _ & ->).
    unfold onDataLoaded. destruct (DashboardData.topics _) as [|topic0 ?]; [done|].
    by destruct (Topic.subtopics topic0).
  - assert (∀ s, pdfPositive (App.page s) → pdfPositive (App.page (run s events)))
      as Hrun.
    { induction events as [|e' events' IH]; intros s Hs; [done|].
      simpl. apply IH. by apply pdfPositive_step. }
    by apply Hrun.
Qed.

Lemma step_control_idle a e :
  unanswered a → currentAnswers (App.page a) = [] → quizControl e → step a e = a.
Proof.
  intros Hun Hnone Hctl. destruct e as [data|sid pr|n|]; [done..| |].
  - unfold step. destruct (App.quiz a) as [m|]; [|done].
    unfold currentAnswers in Hnone.
    destruct (render (App.page a)) as [k question answers| |]; [|done..].
    by rewrite Hnone.
  - apply step_next_idle. intros m Hq. unfold unanswered in Hun.
    rewrite Hq in Hun. by rewrite Hun.
Qed.

(** X22. A question without choices cannot be passed: while the displayed
    question has no answer buttons and no recorded answer, no sequence of
    answer clicks and Next clicks changes the state; only another selection
    (or a dataset load) leaves it. *)
Theorem question_without_choices_blocks (a : App.t) (events : list event) :
  unanswered a →
  currentAnswers (App.page a) = [] →
  Forall quizControl events →
  run a events = a.
Proof.
  intros Hun Hnone Hall. induction Hall as [|e events He _ IH]; [done|].
  simpl. by rewrite (step_control_idle a e).
Qed.

Lemma mounted_some a item :
  mounted_ok a →
  Page.questionStack (App.page a) !! Page.currentQuestionIndex (App.page a) = Some item →
  ∃ m, App.quiz a = Some m ∧
       currentAnswers (App.page a) = QuestionStackItem.answers item.
Proof.
  intros Hm Hlook.
  assert (render (App.page a) =
          QuizActive (quizKey (Page.selectedSubtopicId (App.page a))
                        (Page.currentQuestionIndex (App.page a)))
            (QuestionStackItem.question item) (QuestionStackItem.answers item)) as Hr.
  { apply render_active. by exists item. }
  unfold mounted_ok in Hm. unfold currentAnswers. rewrite Hr in Hm |- *.
  destruct Hm as [st Hq]. by eexists.
Qed.

Lemma mounted_ok_step a e : mounted_ok a → mounted_ok (step a e).
Proof.
  intros Hm. destruct e as [[d|]|subtopicId pageReference|n|]; [|done|..];
    unfold step; [apply commit_mounted_ok..| |].
  - destruct (App.quiz a) as [m|]; [|done].
    destruct (render (App.page a)) as [k question answers| |] eqn:Hr; [|done..].
    destruct (answers !! n) as [answer|]; [|done].
    destruct (handleAnswerClick _ _ _ _ _) as [q' notify]. apply commit_mounted_ok.
  - destruct (App.quiz a) as [m|]; [|done].
    destruct (handleNext _); [apply commit_mounted_ok|done].
Qed.

Lemma run_cons a e events : run a (e :: events) = run (step a e) events.
Proof. reflexivity. Qed.

Lemma answerAll_S k : answerAll (S k) = AnswerClick 0 :: NextClick :: answerAll k.
Proof. reflexivity. Qed.

Lemma walk_completes k :
  ∀ a index,
    mounted_ok a →
    progression (App.page a) = InProgress index →
    unanswered a →
    answerable (App.page a) index →
    index + S k = length (Page.questionStack (App.page a)) →
    progression (App.page (run a (answerAll (S k)))) = Complete ∧
    Page.explanationText (App.page (run a (answerAll (S k)))) = allAnswered ∧
    Page.questionStack (App.page (run a (answerAll (S k))))
    = Page.questionStack (App.page a).
Proof.
  induction k as [|k IH]; intros a index Hm Hprog Hun Hans Hlen.
  all: apply progression_InProgress in Hprog as Hfields.
  all: destruct Hfields as (Hstack & Hdone & Hidx).
  all: destruct (lookup_lt_is_Some_2 (Page.questionStack (App.page a)) index)
         as [item Hitem]; [lia|].
  all: rewrite <-Hidx in Hitem.
  all: destruct (mounted_some a item Hm Hitem) as (m & Hq & Hcur).
  all: destruct (Hans index item) as (answer & Hfirst & Hid);
         [done|by rewrite <-Hidx|].
  all: assert (truthy_opt (Quiz.selectedAnswer (Mounted.state m)) = false) as Hfalsy
         by (unfold unanswered in Hun; rewrite Hq in Hun; by rewrite Hun).
  all: rewrite <-Hcur in Hfirst.
  all: pose proof (first_answer a m 0 answer Hm Hq Hfalsy Hfirst) as H1.
  all: rewrite answerAll_S, !run_cons, H1.
  all: set (a1 := App.mk _ _) in *.
  all: assert (mounted_ok a1) as Hm1
         by (rewrite <-H1; by apply mounted_ok_step).
  all: assert (progression (App.page a1) = InProgress index) as Hprog1
         by (by apply progression_InProgress).
  all: assert (truthy_opt (Quiz.selectedAnswer
                 (Mounted.state (Mounted.mk (Mounted.key m) (Mounted.question m)
                    (Quiz.mk (Some (Answer.id answer))
                       (if Answer.isCorrect answer then Some (Answer.id answer)
                        else match array_find (λ x, Answer.isCorrect x = true)
                                     (currentAnswers (App.page a)) with
                             | Some correct => Some (Answer.id correct)
                             | None => Quiz.correctAnswerId (Mounted.state m)
                             end)
                       (Some (Answer.explanation answer)))))) = true) as Htruthy
         by (simpl; unfold truthy; by rewrite bool_decide_eq_true_2).
  all: destruct (advance_answered a1 _ index Hm1 Hprog1 eq_refl Htruthy)
         as [Hnext Hlast].
  - destruct Hlast as [Hc Ht]; [simpl; lia|].
    change (run (step a1 NextClick) (answerAll 0)) with (step a1 NextClick).
    split_and!; [done..|].
    by destruct (quizFrame_next a1) as (_ & _ & _ & -> & _).
  - destruct Hnext as (Hp2 & Hun2 & _); [simpl; lia|].
    assert (Page.questionStack (App.page (step a1 NextClick))
            = Page.questionStack (App.page a))
      as Hstack2 by (by destruct (quizFrame_next a1) as (_ & _ & _ & -> & _)).
    assert (mounted_ok (step a1 NextClick)) as Hm2 by (by apply mounted_ok_step).
    set (a2 := step a1 NextClick) in *.
    destruct (IH a2 (index + 1) Hm2 Hp2 Hun2) as (Hc & Ht & Hs).
    + intros j it Hj. rewrite Hstack2. apply Hans. lia.
    + rewrite Hstack2. lia.
    + split_and!; [done..|]. by rewrite Hs.
Qed.

(** X23. The quiz can always be completed: in a reachable state that shows
    question [index] with no answer recorded, when every question from
    [index] on has a first answer with a non-empty id, picking the first
    answer and pressing Next once for each remaining question completes the
    stack, with the completion message as explanation text and the stack
    unchanged. *)
Theorem answering_every_question_completes (a : App.t) (index : nat) :
  reachable a →
  progression (App.page a) = InProgress index →
  unanswered a →
  answerable (App.page a) index →
  let remaining := length (Page.questionStack (App.page a)) - index in
  progression (App.page (run a (answerAll remaining))) = Complete ∧
  Page.explanationText (App.page (run a (answerAll remaining))) = allAnswered ∧
  Page.questionStack (App.page (run a (answerAll remaining)))
  = Page.questionStack (App.page a).
Proof.
  intros Hreach Hprog Hun Hans remaining.
  destruct (reachable_Inv a Hreach) as [Hm (_ & _ & Hbound)].
  apply progression_InProgress in Hprog as Hfields.
  destruct Hfields as (Hstack & _ & Hidx). destruct Hbound as [?|Hlt]; [done|].
  rewrite Hidx in Hlt.
  assert (remaining = S (remaining - 1)) as -> by (unfold remaining; lia).
  apply (walk_completes _ a index); [done..|]. unfold remaining. lia.
Qed.

(** ** The further properties at the sample data *)

Lemma reachable_loaded : reachable Sample.loaded.
Proof. by exists [DataLoaded (Some Sample.data)]. Defined.

Lemma reachable_answeredFirst : reachable Demo.answeredFirst.
Proof. by exists [DataLoaded (Some Sample.data); AnswerClick 1]. Defined.

Lemma reachable_loadedTwoTopics : reachable Demo.loadedTwoTopics.
Proof. by exists [DataLoaded (Some Demo.twoTopics)]. Defined.

Lemma complete_is_absorbing_witness :
  progression (App.page Demo.completed) = Complete ∧
  progression (App.page (step Demo.completed (AnswerClick 0))) = Complete ∧
  progression (App.page (step Demo.completed NextClick)) = Complete.
Proof.
  assert (progression (App.page Demo.completed) = Complete) as Hc by reflexivity.
  split; [exact Hc|]. exact (complete_is_absorbing Demo.completed 0 Hc).
Defined.

Lemma completing_is_idempotent_witness :
  mounted_ok Demo.answeredLast ∧
  Page.currentQuestionIndex (App.page Demo.answeredLast) + 1
  = length (Page.questionStack (App.page Demo.answeredLast)) ∧
  step (step Demo.answeredLast NextClick) NextClick = step Demo.answeredLast NextClick.
Proof.
  assert (mounted_ok Demo.answeredLast) as Hm by (vm_compute; eexists; reflexivity).
  assert (Page.currentQuestionIndex (App.page Demo.answeredLast) + 1
          = length (Page.questionStack (App.page Demo.answeredLast))) as Hlast
    by reflexivity.
  split_and!; [exact Hm|exact Hlast|].
  exact (completing_is_idempotent Demo.answeredLast Hm Hlast).
Defined.

Lemma reselect_keeps_progress_witness :
  mounted_ok Demo.answeredFirst ∧
  Page.selectedSubtopicId (App.page Demo.answeredFirst) = Some "s1" ∧
  App.quiz (step Demo.answeredFirst (SubtopicClick "s1" (Some 3%Z)))
  = App.quiz Demo.answeredFirst.
Proof.
  assert (mounted_ok Demo.answeredFirst) as Hm by (vm_compute; eexists; reflexivity).
  assert (Page.selectedSubtopicId (App.page Demo.answeredFirst) = Some "s1") as Hsel
    by reflexivity.
  split_and!; [exact Hm|exact Hsel|].
  exact (proj1 (reselect_keeps_progress Demo.answeredFirst "s1" (Some 3%Z) Hm Hsel)).
Defined.

Lemma selection_restarts_progression_witness :
  reachable Demo.loadedTwoTopics ∧
  Page.dashboardData (App.page Demo.loadedTwoTopics) = Some Demo.twoTopics ∧
  Page.selectedSubtopicId (App.page Demo.loadedTwoTopics) ≠ Some "s3" ∧
  "s3" ≠ "" ∧
  Page.selectedSubtopicId
    (App.page (step Demo.loadedTwoTopics (SubtopicClick "s3" (Some 9%Z))))
  = Some "s3".
Proof.
  assert (Page.dashboardData (App.page Demo.loadedTwoTopics) = Some Demo.twoTopics)
    as Hd by reflexivity.
  assert (Page.selectedSubtopicId (App.page Demo.loadedTwoTopics) ≠ Some "s3")
    as Hchange by discriminate.
  assert ("s3" ≠ "") as Hne by discriminate.
  split_and!; [exact reachable_loadedTwoTopics|exact Hd|exact Hchange|exact Hne|].
  exact (proj1 (selection_restarts_progression Demo.loadedTwoTopics Demo.twoTopics
                  "s3" (Some 9%Z) reachable_loadedTwoTopics Hd Hchange Hne)).
Defined.

Lemma advance_moves_or_completes_witness :
  reachable Demo.answeredFirst ∧
  progression (App.page Demo.answeredFirst) = InProgress 0 ∧
  App.quiz Demo.answeredFirst = Some Demo.m1 ∧
  truthy_opt (Quiz.selectedAnswer (Mounted.state Demo.m1)) = true ∧
  Page.dashboardData (App.page Demo.answeredFirst) = Some Sample.data ∧
  Page.selectedSubtopicId (App.page Demo.answeredFirst) = Some "s1" ∧
  "s1" ≠ "" ∧
  0 < length (Page.questionStack (App.page Demo.answeredFirst)).
Proof.
  assert (progression (App.page Demo.answeredFirst) = InProgress 0) as Hp by reflexivity.
  assert (App.quiz Demo.answeredFirst = Some Demo.m1) as Hq by reflexivity.
  assert (truthy_opt (Quiz.selectedAnswer (Mounted.state Demo.m1)) = true) as Ht
    by reflexivity.
  assert (Page.dashboardData (App.page Demo.answeredFirst) = Some Sample.data) as Hd
    by reflexivity.
  assert (Page.selectedSubtopicId (App.page Demo.answeredFirst) = Some "s1") as Hsel
    by reflexivity.
  assert ("s1" ≠ "") as Hne by discriminate.
  split_and!; [exact reachable_answeredFirst|exact Hp|exact Hq|exact Ht|exact Hd
              |exact Hsel|exact Hne|].
  exact (proj1 (advance_moves_or_completes Demo.answeredFirst Demo.m1 0 Sample.data
                  "s1" reachable_answeredFirst Hp Hq Ht Hd Hsel Hne)).
Defined.

Lemma pick_is_final_witness :
  reachable Sample.loaded ∧
  unanswered Sample.loaded ∧
  currentAnswers (App.page Sample.loaded) !! 1 = Some Sample.b1 ∧
  Answer.id Sample.b1 ≠ "" ∧
  step (step Sample.loaded (AnswerClick 1)) (AnswerClick 0)
  = step Sample.loaded (AnswerClick 1).
Proof.
  assert (unanswered Sample.loaded) as Hun by reflexivity.
  assert (currentAnswers (App.page Sample.loaded) !! 1 = Some Sample.b1) as Hn
    by reflexivity.
  assert (Answer.id Sample.b1 ≠ "") as Hid by discriminate.
  split_and!; [exact reachable_loaded|exact Hun|exact Hn|exact Hid|].
  exact (pick_is_final Sample.loaded 1 0 Sample.b1 reachable_loaded Hun Hn Hid).
Defined.

Lemma selecting_unknown_subtopic_witness :
  Page.dashboardData (App.page Sample.loaded) = Some Sample.data ∧
  Page.selectedSubtopicId (App.page Sample.loaded) ≠ Some "s9" ∧
  "s9" ≠ "" ∧
  (∀ topic, topic ∈ topicsOf Sample.data → ¬ has_subtopic "s9" topic) ∧
  findSubtopicById Sample.data "s9" = None.
Proof.
  assert (Page.dashboardData (App.page Sample.loaded) = Some Sample.data) as Hd
    by reflexivity.
  assert (Page.selectedSubtopicId (App.page Sample.loaded) ≠ Some "s9") as Hchange
    by discriminate.
  assert ("s9" ≠ "") as Hne by discriminate.
  assert (∀ topic, topic ∈ topicsOf Sample.data → ¬ has_subtopic "s9" topic) as Hunknown.
  { intros topic Hin (sub & Hsub & Hid).
    apply list_elem_of_singleton in Hin as ->.
    apply list_elem_of_singleton in Hsub as ->. discriminate Hid. }
  split_and!; [exact Hd|exact Hchange|exact Hne|exact Hunknown|].
  exact (proj1 (selecting_unknown_subtopic Sample.loaded Sample.data "s9" (Some 1%Z)
                  Hd Hchange Hne Hunknown)).
Defined.

Lemma recorded_correct_answer_is_correct_witness :
  mounted_ok Demo.loadedTwoCorrect ∧
  App.quiz Demo.loadedTwoCorrect = Some Demo.m6 ∧
  Mounted.state Demo.m6 = Quiz.initial ∧
  currentAnswers (App.page Demo.loadedTwoCorrect) !! 0 = Some Demo.a6 ∧
  ∃ st, quizState (step Demo.loadedTwoCorrect (AnswerClick 0)) = Some st ∧
        Quiz.correctAnswerId st = Some "b".
Proof.
  assert (mounted_ok Demo.loadedTwoCorrect) as Hm by (vm_compute; eexists; reflexivity).
  assert (App.quiz Demo.loadedTwoCorrect = Some Demo.m6) as Hq by reflexivity.
  assert (Mounted.state Demo.m6 = Quiz.initial) as Hinit by reflexivity.
  assert (currentAnswers (App.page Demo.loadedTwoCorrect) !! 0 = Some Demo.a6) as Hn
    by reflexivity.
  split_and!; [exact Hm|exact Hq|exact Hinit|exact Hn|].
  destruct (recorded_correct_answer_is_correct Demo.loadedTwoCorrect Demo.m6 0 Demo.a6
              Hm Hq Hinit Hn) as (st & Hst & _ & _ & _ & Hfirst & _).
  exists st. split; [exact Hst|].
  apply (Hfirst eq_refl [Demo.a6] Demo.b6
           [Answer.mk "c" "choice c" true "A forest has no cycle."]);
    [reflexivity|reflexivity|].
  intros y Hy. apply list_elem_of_singleton in Hy as ->. reflexivity.
Defined.

Lemma demo_url_not_empty : ∀ n, Demo.createObjectURL n ≠ "".
Proof. intros n. discriminate. Defined.

Lemma demo_url_fresh : Inj (=) (=) Demo.createObjectURL.
Proof.
  intros i j Heq. unfold Demo.createObjectURL in Heq.
  apply (inj (String.append "blob:")) in Heq. by apply (inj pretty) in Heq.
Defined.

Lemma object_urls_do_not_leak_witness :
  (∀ n, Demo.createObjectURL n ≠ "") ∧
  Inj (=) (=) Demo.createObjectURL ∧
  noLeak (viewerLife Demo.createObjectURL Demo.viewerProps Demo.viewerRenders).2.
Proof.
  split_and!; [exact demo_url_not_empty|exact demo_url_fresh|].
  exact (proj1 (object_urls_do_not_leak Demo.createObjectURL demo_url_not_empty
                  demo_url_fresh Demo.viewerProps Demo.viewerRenders)).
Defined.

Lemma question_without_choices_blocks_witness :
  unanswered Demo.loadedNoChoices ∧
  currentAnswers (App.page Demo.loadedNoChoices) = [] ∧
  Forall quizControl [AnswerClick 0; NextClick; AnswerClick 3] ∧
  progression (App.page Demo.loadedNoChoices) = InProgress 0 ∧
  run Demo.loadedNoChoices [AnswerClick 0; NextClick; AnswerClick 3]
  = Demo.loadedNoChoices.
Proof.
  assert (unanswered Demo.loadedNoChoices) as Hun by reflexivity.
  assert (currentAnswers (App.page Demo.loadedNoChoices) = []) as Hnone by reflexivity.
  assert (Forall quizControl [AnswerClick 0; NextClick; AnswerClick 3]) as Hctl
    by (repeat constructor).
  split_and!; [exact Hun|exact Hnone|exact Hctl|reflexivity|].
  exact (question_without_choices_blocks Demo.loadedNoChoices _ Hun Hnone Hctl).
Defined.

Lemma answering_every_question_completes_witness :
  reachable Sample.loaded ∧
  progression (App.page Sample.loaded) = InProgress 0 ∧
  unanswered Sample.loaded ∧
  answerable (App.page Sample.loaded) 0 ∧
  progression (App.page (run Sample.loaded (answerAll 2))) = Complete.
Proof.
  assert (progression (App.page Sample.loaded) = InProgress 0) as Hp by reflexivity.
  assert (unanswered Sample.loaded) as Hun by reflexivity.
  assert (answerable (App.page Sample.loaded) 0) as Hans.
  { intros j item _ Hj. destruct j as [|[|j]]; simpl in Hj; [| |discriminate Hj].
    - injection Hj as <-. eexists. split; [reflexivity|discriminate].
    - injection Hj as <-. eexists. split; [reflexivity|discriminate]. }
  split_and!; [exact reachable_loaded|exact Hp|exact Hun|exact Hans|].
  exact (proj1 (answering_every_question_completes Sample.loaded 0
                  reachable_loaded Hp Hun Hans)).
Defined.
